(** * Rule-based triage pipeline of the PartSelect chat agent

    A shallow embedding of the sanitizer, the entity extractor, the scope
    detector and the intent classifier
    (backend/src/utils/sanitizers.js, backend/src/config/constants.js,
    backend/src/services/scopeDetectionService.js and
    backend/src/services/intentClassificationService.js), followed by the
    properties established about them.

    JavaScript strings are sequences of UTF-16 code units; they are modelled
    as lists of [N].  The regular expressions of the sources are written in a
    small abstract syntax and run by a backtracking matcher that follows the
    priority order of the ECMAScript matcher (greedy quantifiers, leftmost
    alternative first).  Scores are integers ([Z]); confidences, doubles in
    the sources, are exact rationals ([Q]). *)

From Stdlib Require Import List NArith ZArith QArith Qminmax Bool Lia String Ascii.
Import ListNotations.

Close Scope Q_scope.
Set Implicit Arguments.

(* ================================================================= *)
(** ** JavaScript strings and the built-ins the sources call *)

Module JS.

Definition char := N.
Definition jsstring := list char.

(** A string literal of the sources (all of them are ASCII). *)
Definition js (s : string) : jsstring := map N_of_ascii (list_ascii_of_string s).

Definition streq (a b : jsstring) : bool :=
  if list_eq_dec N.eq_dec a b then true else false.

Definition inRange (lo hi : N) (c : char) : bool := (lo <=? c)%N && (c <=? hi)%N.

(** WhiteSpace and LineTerminator code points: the set stripped by
    [String.prototype.trim] and matched by the class escape [\s]. *)
Definition isWhiteSpace (c : char) : bool :=
  inRange 9 13 c || (c =? 32)%N || (c =? 160)%N || (c =? 5760)%N
  || inRange 8192 8202 c || (c =? 8232)%N || (c =? 8233)%N || (c =? 8239)%N
  || (c =? 8287)%N || (c =? 12288)%N || (c =? 65279)%N.

Definition isDigit (c : char) : bool := inRange 48 57 c.      (* \d *)
Definition isUpperAZ (c : char) : bool := inRange 65 90 c.    (* [A-Z] *)
Definition isLowerAZ (c : char) : bool := inRange 97 122 c.   (* [a-z] *)

Definition space : char := 32%N.

Fixpoint dropWhile (p : char -> bool) (s : jsstring) : jsstring :=
  match s with
  | [] => []
  | c :: s' => if p c then dropWhile p s' else s
  end.

(** [String.prototype.trim]. *)
Definition trim (s : jsstring) : jsstring :=
  rev (dropWhile isWhiteSpace (rev (dropWhile isWhiteSpace s))).

Fixpoint startsWith (s sub : jsstring) : bool :=
  match sub, s with
  | [], _ => true
  | _ :: _, [] => false
  | a :: sub', c :: s' => (a =? c)%N && startsWith s' sub'
  end.

(** [String.prototype.includes]: [sub] occurs in [s]. *)
Fixpoint includes (s sub : jsstring) : bool :=
  startsWith s sub ||
  match s with
  | [] => false
  | _ :: s' => includes s' sub
  end.

(** [Array.prototype.includes] on an array of strings. *)
Definition Array_includes (l : list jsstring) (x : jsstring) : bool :=
  existsb (streq x) l.

(** [Array.prototype.join]. *)
Fixpoint join (sep : jsstring) (l : list jsstring) : jsstring :=
  match l with
  | [] => []
  | [x] => x
  | x :: l' => x ++ sep ++ join sep l'
  end.

(** Simple case mapping of one code unit, on the ASCII letters. *)
Definition upperCode (c : char) : char := if isLowerAZ c then (c - 32)%N else c.
Definition lowerCode (c : char) : char := if isUpperAZ c then (c + 32)%N else c.

(** [String.prototype.toUpperCase] on the strings the sources apply it to:
    matches of [PS\d{6,}], which hold ASCII letters and digits only.  On
    those the Unicode case mapping is the ASCII one. *)
Definition toUpperCase (s : jsstring) : jsstring := map upperCode s.

(** [[...new Set(l)]]: duplicates removed, first occurrences kept, in
    insertion order. *)
Definition Set_add (acc : list jsstring) (x : jsstring) : list jsstring :=
  if Array_includes acc x then acc else acc ++ [x].

Definition Set_of (l : list jsstring) : list jsstring := fold_left Set_add l [].

(** [s.substring(0, end)] for an integer [end]; a negative [end] counts
    as 0 and one past the length as the length. *)
Definition substring0 (s : jsstring) (end_ : Z) : jsstring :=
  firstn (Z.to_nat end_) s.

(** The values a caller can pass where a string is expected: a string, or
    a value of another type, of which only the result of [typeof] matters. *)
Inductive typeName :=
| Undefined | Object | Boolean | Number | BigInt | Symbol | Function.

Inductive value :=
| VString (s : jsstring)
| VOther (t : typeName).

(** [typeof v === 'string'] *)
Definition typeof_is_string (v : value) : bool :=
  match v with VString _ => true | VOther _ => false end.

(** A thrown [Error] with its message. *)
Inductive exn := Error (message : string).

Inductive completion (A : Type) :=
| Return (a : A)
| Throw (e : exn).
Arguments Return {A} a.
Arguments Throw {A} e.

End JS.

(* ================================================================= *)
(** ** Regular expressions *)

Module RegExp.
Import JS.

(** The patterns of the sources: character classes under a greedy
    quantifier, sequences, alternatives and (capturing) groups. *)
Inductive regex :=
| Empty
| Chars (p : char -> bool) (lo : nat) (hi : option nat)
| Seq (r1 r2 : regex)
| Alt (r1 r2 : regex)
| Group (r : regex).

Definition ohpred (hi : option nat) : option nat := option_map pred hi.

Definition cont := jsstring -> option jsstring.

(** [p{lo,hi}], greedy: take one more code unit whenever allowed, and fall
    back to the continuation when the longer attempt fails. *)
Fixpoint rep (p : char -> bool) (lo : nat) (hi : option nat)
    (s : jsstring) (k : cont) {struct s} : option jsstring :=
  match s with
  | [] => match lo with O => k [] | S _ => None end
  | c :: s' =>
      match lo with
      | S lo' => if p c then rep p lo' (ohpred hi) s' k else None
      | O =>
          match hi with
          | Some O => k s
          | _ =>
              if p c then
                match rep p 0 (ohpred hi) s' k with
                | Some r => Some r
                | None => k s
                end
              else k s
          end
      end
  end.

(** The matcher, in continuation-passing style: [m r s k] matches [r] at the
    start of [s] and hands the rest of the input to [k]. *)
Fixpoint m (r : regex) (s : jsstring) (k : cont) : option jsstring :=
  match r with
  | Empty => k s
  | Chars p lo hi => rep p lo hi s k
  | Seq r1 r2 => m r1 s (fun s' => m r2 s' k)
  | Alt r1 r2 =>
      match m r1 s k with
      | Some x => Some x
      | None => m r2 s k
      end
  | Group r' => m r' s k
  end.

(** A match anchored at the start of [s]: what is left after it. *)
Definition exec (r : regex) (s : jsstring) : option jsstring := m r s Some.

(** [RegExp.prototype.test] of a pattern without the [g] flag: is there a
    match at some index. *)
Fixpoint test (r : regex) (s : jsstring) : bool :=
  match exec r s with
  | Some _ => true
  | None =>
      match s with
      | [] => false
      | _ :: s' => test r s'
      end
  end.

(** One pass of a [g] pattern over a string: the successive matches, and
    the code units between them. *)
Inductive piece :=
| Hit (matched : jsstring)
| Miss (c : char).

(** [skip] code units of the input still belong to the match found last. *)
Fixpoint scan (r : regex) (skip : nat) (s : jsstring) : list piece :=
  match s with
  | [] =>
      match skip, exec r [] with
      | O, Some _ => [Hit []]
      | _, _ => []
      end
  | c :: s' =>
      match skip with
      | S n => scan r n s'
      | O =>
          match exec r s with
          | None => Miss c :: scan r 0 s'
          | Some rest =>
              match (List.length s - List.length rest)%nat with
              | O => Hit [] :: Miss c :: scan r 0 s'
              | S n => Hit (firstn (S n) s) :: scan r n s'
              end
          end
      end
  end.

Definition hits (l : list piece) : list jsstring :=
  flat_map (fun x => match x with Hit h => [h] | Miss _ => [] end) l.

(** [String.prototype.match] with a [g] pattern: [null] without a match,
    otherwise the array of all matches. *)
Definition match_g (r : regex) (s : jsstring) : option (list jsstring) :=
  match hits (scan r 0 s) with
  | [] => None
  | l => Some l
  end.

(** [String.prototype.replace] with a [g] pattern and a replacer function. *)
Definition replace_g (r : regex) (f : jsstring -> jsstring) (s : jsstring) : jsstring :=
  flat_map (fun x => match x with Hit h => f h | Miss c => [c] end) (scan r 0 s).

(** The loop of [String.prototype.split] with a pattern separator: [cur]
    holds, reversed, the code units since the end of the last separator. *)
Fixpoint split_loop (r : regex) (skip : nat) (cur : jsstring) (s : jsstring)
    : list jsstring :=
  match s with
  | [] => [rev cur]
  | c :: s' =>
      match skip with
      | S n => split_loop r n cur s'
      | O =>
          match exec r s with
          | None => split_loop r 0 (c :: cur) s'
          | Some rest =>
              match (List.length s - List.length rest)%nat with
              | O =>
                  match cur with
                  | [] => split_loop r 0 [c] s'
                  | _ :: _ => rev cur :: split_loop r 0 [c] s'
                  end
              | S n => rev cur :: split_loop r n [] s'
              end
          end
      end
  end.

Definition split (r : regex) (s : jsstring) : list jsstring :=
  match s with
  | [] => match exec r [] with Some _ => [] | None => [[]] end
  | _ :: _ => split_loop r 0 [] s
  end.

(** *** Building patterns *)

(** The [i] flag on a class of ASCII characters: a code unit matches when
    one of its case variants is in the class.  (Canonicalize never maps a
    code unit above 127 to an ASCII one, so only ASCII letters gain
    variants.) *)
Definition icase (p : char -> bool) (c : char) : bool :=
  p c || p (upperCode c) || p (lowerCode c).

Definition one (p : char -> bool) : regex := Chars p 1 (Some 1).
(** A class given by the list of its members. *)
Definition oneOf (members : jsstring) (c : char) : bool :=
  existsb (N.eqb c) members.

(** A literal, case-sensitive and under the [i] flag. *)
Fixpoint lit_of (wrap : (char -> bool) -> char -> bool) (l : jsstring) : regex :=
  match l with
  | [] => Empty
  | [a] => one (wrap (N.eqb a))
  | a :: l' => Seq (one (wrap (N.eqb a))) (lit_of wrap l')
  end.

Definition lit (a : string) : regex := lit_of (fun p => p) (js a).
Definition lit_i (a : string) : regex := lit_of icase (js a).

Fixpoint alts (l : list regex) : regex :=
  match l with
  | [] => Empty
  | [r] => r
  | r :: l' => Alt r (alts l')
  end.

Fixpoint seqs (l : list regex) : regex :=
  match l with
  | [] => Empty
  | [r] => r
  | r :: l' => Seq r (seqs l')
  end.

End RegExp.

(* ================================================================= *)
(** ** config/constants.js *)

Module CONSTANTS.
Import JS RegExp.

Module MESSAGE.
Definition MIN_LENGTH : nat := 1.
Definition MAX_LENGTH : nat := 5000.
End MESSAGE.

Module INTENT.
Definition PRODUCT_SEARCH : string := "product_search".
Definition COMPATIBILITY_CHECK : string := "compatibility_check".
Definition INSTALLATION_GUIDE : string := "installation_guide".
Definition TROUBLESHOOTING : string := "troubleshooting".
Definition ORDER_SUPPORT : string := "order_support".
Definition GENERAL_INQUIRY : string := "general_inquiry".
End INTENT.

Module APPLIANCE_TYPE.
Definition REFRIGERATOR : string := "refrigerator".
Definition DISHWASHER : string := "dishwasher".
End APPLIANCE_TYPE.

Definition IN_SCOPE_KEYWORDS : list jsstring := map js
  [ (* General parts terms *)
    "part"; "parts"; "component"; "components"; "replacement"; "repair";
    "fix"; "broken"; "install"; "installation"; "setup"; "assemble";
    "compatible"; "compatibility"; "work with"; "fit"; "problem"; "issue";
    "not working"; "damaged"; "replace";
    (* Appliance types *)
    "refrigerator"; "refrigerators"; "fridge"; "fridges"; "dishwasher";
    "dishwashers";
    (* Common part types *)
    "water valve"; "filter"; "compressor"; "thermostat"; "fan"; "motor";
    "seal"; "gasket"; "hinge"; "handle"; "shelf"; "drawer"; "ice maker";
    "dispenser"; "heating element"; "pump"; "spray arm"; "door"; "latch";
    (* Troubleshooting terms *)
    "leaking"; "leak"; "freeze"; "frozen"; "clogged"; "clog"; "noise";
    "noisy"; "won't"; "not working"; "stopped"; "error"; "malfunction";
    (* Action terms *)
    "buy"; "purchase"; "need"; "have"; "looking for"; "find"; "search";
    "what about"; "how"; "where"; "can i";
    (* Order/transaction terms *)
    "order"; "price"; "cost"; "cart"; "checkout"; "buy" ]%string.

Definition OUT_OF_SCOPE_KEYWORDS : list jsstring := map js
  [ "weather"; "stock market"; "recipe"; "cooking"; "politics"; "sports";
    "news"; "movie"; "book"; "music"; "travel"; "hotel"; "flight";
    "restaurant"; "joke"; "laugh"; "funny" ]%string.

Module PATTERNS.
(** [/PS\d{6,}/i] *)
Definition PART_NUMBER : regex :=
  seqs [ one (icase (N.eqb 80)); one (icase (N.eqb 83));
         Chars (icase isDigit) 6 None ].

(** [/( [A-Z]{1,3} \d{3,4} [A-Z]{0,2} \d+ [A-Z]? \d* )/i] (spaces added
    between its parts) *)
Definition MODEL_NUMBER : regex :=
  Group (seqs [ Chars (icase isUpperAZ) 1 (Some 3);
                Chars (icase isDigit) 3 (Some 4);
                Chars (icase isUpperAZ) 0 (Some 2);
                Chars (icase isDigit) 1 None;
                Chars (icase isUpperAZ) 0 (Some 1);
                Chars (icase isDigit) 0 None ]).

(** [/\d{6,}/] *)
Definition SKU_PATTERN : regex := Chars isDigit 6 None.
End PATTERNS.

(** The object [INTENT_KEYWORDS], keys in declaration order. *)
Definition INTENT_KEYWORDS : list (string * list jsstring) :=
  [ ("product_search", map js
       ["need"; "looking for"; "find me"; "do you have"; "i want";
        "show me"; "where can i get"; "what is"; "tell me about"]);
    ("compatibility_check", map js
       ["compatible"; "compatible with"; "fit"; "work with"; "support";
        "fit my"; "for my"; "match"]);
    ("installation_guide", map js
       ["install"; "how to"; "setup"; "assemble"; "attach"; "how do i";
        "help me install"; "steps"]);
    ("troubleshooting", map js
       ["broken"; "not working"; "fix"; "repair"; "problem"; "issue";
        "what's wrong"; "stopped"; "leaking"; "won't"]);
    ("order_support", map js
       ["order"; "price"; "cost"; "buy"; "cart"; "checkout"; "where's my";
        "tracking"]) ]%string.

(** Property access [obj[key]]: [undefined] when the key is absent. *)
Fixpoint get {A : Type} (obj : list (string * A)) (key : string) : option A :=
  match obj with
  | [] => None
  | (k, v) :: obj' => if String.eqb k key then Some v else get obj' key
  end.

End CONSTANTS.

(* ================================================================= *)
(** ** utils/sanitizers.js *)

Module Sanitizers.
Import JS RegExp.

Definition htmlEscapeMap : list (jsstring * jsstring) :=
  [ (js "&", js "&amp;"); (js "<", js "&lt;"); (js ">", js "&gt;");
    ([34%N], js "&quot;"); (js "'", js "&#39;"); (js "/", js "&#x2F;") ].

Fixpoint htmlEscapeMap_get (obj : list (jsstring * jsstring)) (key : jsstring)
    : option jsstring :=
  match obj with
  | [] => None
  | (k, v) :: obj' => if streq k key then Some v else htmlEscapeMap_get obj' key
  end.

(** [str.replace(re, (char) => htmlEscapeMap[char])], where the global
    pattern [re] is the class of the six keys of [htmlEscapeMap]. *)
Definition encodeHtmlEntities (str : jsstring) : jsstring :=
  replace_g (one (oneOf (js "&<>" ++ [34%N] ++ js "'/")))
    (fun char =>
       match htmlEscapeMap_get htmlEscapeMap char with
       | Some v => v
       | None => js "undefined"
       end)
    str.

Definition trimWhitespace (str : jsstring) : jsstring := trim str.

(** [str.replace(/\s+/g, ' ').trim()] *)
Definition normalizeWhitespace (str : jsstring) : jsstring :=
  trim (replace_g (Chars isWhiteSpace 1 None) (fun _ => js " ") str).

(** The class [[a-zA-Z0-9\s\-_.!?,()]] that [removeSpecialCharacters]
    keeps. *)
Definition isKept (c : char) : bool :=
  isLowerAZ c || isUpperAZ c || isDigit c || isWhiteSpace c
  || oneOf (js "-_.!?,()") c.

(** Remove special characters while keeping alphanumeric and common
    punctuation. *)
Definition removeSpecialCharacters (str : jsstring) : jsstring :=
  replace_g (one (fun c => negb (isKept c))) (fun _ => []) str.

(** The class [[\x00-\x08\x0B-\x0C\x0E-\x1F\x7F]]. *)
Definition isControl (c : char) : bool :=
  inRange 0 8 c || inRange 11 12 c || inRange 14 31 c || (c =? 127)%N.

Definition removeControlCharacters (str : jsstring) : jsstring :=
  replace_g (one isControl) (fun _ => []) str.

Record SanitizedMessage := {
  original : jsstring;
  cleaned : jsstring;
  sanitized : jsstring;
  lowercase : jsstring
}.

Section WithCaseMapping.

(** [String.prototype.toLowerCase], the full Unicode mapping; the properties
    below hold whatever it returns. *)
Variable toLowerCase : jsstring -> jsstring.

Definition toLowercase (str : jsstring) : jsstring := toLowerCase str.

Definition sanitizeMessage (message : value) : completion SanitizedMessage :=
  match message with
  | VString message =>
      (* Step 1: Remove control characters *)
      let cleaned := removeControlCharacters message in
      (* Step 2: Trim whitespace *)
      let cleaned := trimWhitespace cleaned in
      (* Step 3: Normalize internal whitespace *)
      let cleaned := normalizeWhitespace cleaned in
      (* Step 4: Encode HTML entities *)
      let htmlEncoded := encodeHtmlEntities cleaned in
      (* Step 5: Create lowercase version *)
      let lowercase := toLowercase cleaned in
      Return {| original := message;
                cleaned := cleaned;
                sanitized := htmlEncoded;
                lowercase := lowercase |}
  | VOther _ => Throw (Error "Message must be a string")
  end.

End WithCaseMapping.

(** The class [[a-zA-Z0-9\-_]] of a session ID. *)
Definition isSessionIdChar (c : char) : bool :=
  isLowerAZ c || isUpperAZ c || isDigit c || oneOf (js "-_") c.

(** Validate and sanitize session ID, for a string argument: [null] for
    the empty string and when nothing is left. *)
Definition sanitizeSessionId (sessionId : jsstring) : option jsstring :=
  match sessionId with
  | [] => None
  | _ :: _ =>
      let sanitized :=
        replace_g (one (fun c => negb (isSessionIdChar c))) (fun _ => [])
          sessionId in
      (* Limit length to 50 characters *)
      match substring0 sanitized 50 with
      | [] => None
      | c :: r => Some (c :: r)
      end
  end.

Record Entities := {
  partNumbers : list jsstring;
  modelNumbers : list jsstring
}.

(** [/PS\d{6,}/gi] *)
Definition partPattern : regex :=
  seqs [ one (icase (N.eqb 80)); one (icase (N.eqb 83));
         Chars (icase isDigit) 6 None ].

(** [/( [A-Z]{1,3} \d{3,4} [A-Z]{0,2} \d+ [A-Z]? \d* )/g] (spaces added
    between its parts), case-sensitive. *)
Definition modelPattern : regex :=
  Group (seqs [ Chars isUpperAZ 1 (Some 3);
                Chars isDigit 3 (Some 4);
                Chars isUpperAZ 0 (Some 2);
                Chars isDigit 1 None;
                Chars isUpperAZ 0 (Some 1);
                Chars isDigit 0 None ]).

(** Extract part number from message (e.g., PS11752778). *)
Definition extractPartNumber (message : jsstring) : option jsstring :=
  match match_g partPattern message with
  | Some (m0 :: _) => Some (toUpperCase m0)
  | _ => None
  end.

(** Extract model number from message (e.g., WDT780SAEM1): filter out part
    numbers and return first valid model. *)
Definition extractModelNumber (message : jsstring) : option jsstring :=
  match match_g modelPattern message with
  | None => None
  | Some matches =>
      match find (fun m => negb (startsWith m (js "PS"))) matches with
      | Some (c :: m') => Some (c :: m')
      | _ => None
      end
  end.

(** Extract all entities from message (part numbers, model numbers). *)
Definition extractEntities (message : jsstring) : Entities :=
  let partNumbers := [] in
  let modelNumbers := [] in
  (* Extract part numbers *)
  let partNumbers :=
    match match_g partPattern message with
    | Some partMatches => partNumbers ++ map toUpperCase partMatches
    | None => partNumbers
    end in
  (* Extract model numbers *)
  let modelNumbers :=
    match match_g modelPattern message with
    | Some modelMatches =>
        modelNumbers ++ filter (fun m => negb (startsWith m (js "PS"))) modelMatches
    | None => modelNumbers
    end in
  {| partNumbers := Set_of partNumbers;
     modelNumbers := Set_of modelNumbers |}.

End Sanitizers.

(* ================================================================= *)
(** ** utils/validators.js *)

Module Validators.
Import JS RegExp.

(** [/[\x00-\x08\x0B-\x0C\x0E-\x1F]/g], a fresh pattern at every call. *)
Definition controlCharPattern : regex :=
  one (fun c => inRange 0 8 c || inRange 11 12 c || inRange 14 31 c).

(** Check if message contains only valid characters. *)
Definition isMessageSafeFromControlCharacters (message : jsstring) : bool :=
  negb (test controlCharPattern message).

(** Check if message length is valid. *)
Definition isMessageLengthValid (message : jsstring) : bool :=
  let length := List.length (trim message) in
  (CONSTANTS.MESSAGE.MIN_LENGTH <=? length)%nat
  && (length <=? CONSTANTS.MESSAGE.MAX_LENGTH)%nat.

(** Check if message is a string. *)
Definition isMessageString (message : value) : bool := typeof_is_string message.

End Validators.

(* ================================================================= *)
(** ** services/messageService.js *)

Module MessageService.
Import JS RegExp.

Record Metadata := {
  length : nat;
  tokenCount : nat;
  hasNumbers : bool;
  hasSpecialChars : bool
}.

Record Preprocessed := {
  original : jsstring;
  cleaned : jsstring;
  sanitized : jsstring;
  lowercase : jsstring;
  tokens : list jsstring;
  entities : Sanitizers.Entities;
  metadata : Metadata
}.

(** The class [[\s\-_.,!?;:()\[\]{}]] on which [tokenizeMessage] splits. *)
Definition isSeparator (c : char) : bool :=
  isWhiteSpace c || oneOf (js "-_.,!?;:()[]{}") c.

(** The class [\w]. *)
Definition isWord (c : char) : bool :=
  isLowerAZ c || isUpperAZ c || isDigit c || (c =? 95)%N.

(** Extract keywords from tokens. *)
Definition extractKeywords (tokens : list jsstring)
    : list jsstring * list jsstring :=
  fold_left
    (fun '(inScopeKeywords, outOfScopeKeywords) token =>
       let inScopeKeywords :=
         if Array_includes CONSTANTS.IN_SCOPE_KEYWORDS token
         then inScopeKeywords ++ [token] else inScopeKeywords in
       let outOfScopeKeywords :=
         if Array_includes CONSTANTS.OUT_OF_SCOPE_KEYWORDS token
         then outOfScopeKeywords ++ [token] else outOfScopeKeywords in
       (inScopeKeywords, outOfScopeKeywords))
    tokens ([], []).

Section WithCaseMapping.

Variable toLowerCase : jsstring -> jsstring.

(** Tokenize a message into words. *)
Definition tokenizeMessage (message : jsstring) : list jsstring :=
  map (fun token => toLowerCase token)
    (filter (fun token => (0 <? List.length token)%nat)
       (split (Chars isSeparator 1 None) message)).

(** Preprocess a message, for a string argument (the controller passes
    the validated body): the [catch] block logs and throws the error
    again. *)
Definition preprocessMessage (message : jsstring) : completion Preprocessed :=
  (* Check length *)
  if negb (Validators.isMessageLengthValid message) then
    Throw (Error "Message must be between 1 and 5000 characters")
  (* Check for control characters *)
  else if negb (Validators.isMessageSafeFromControlCharacters message) then
    Throw (Error "Message contains invalid characters")
  else
    match Sanitizers.sanitizeMessage toLowerCase (VString message) with
    | Throw e => Throw e
    | Return sanitized =>
        let tokens := tokenizeMessage (Sanitizers.cleaned sanitized) in
        let entities := Sanitizers.extractEntities (Sanitizers.cleaned sanitized) in
        Return
          {| original := Sanitizers.original sanitized;
             cleaned := Sanitizers.cleaned sanitized;
             sanitized := Sanitizers.sanitized sanitized;
             lowercase := Sanitizers.lowercase sanitized;
             tokens := tokens;
             entities := entities;
             metadata :=
               {| length := List.length (Sanitizers.original sanitized);
                  tokenCount := List.length tokens;
                  hasNumbers := test (one isDigit) (Sanitizers.cleaned sanitized);
                  hasSpecialChars :=
                    test (one (fun c => negb (isWord c || isWhiteSpace c)))
                      (Sanitizers.cleaned sanitized) |} |}
    end.

End WithCaseMapping.

End MessageService.

(* ================================================================= *)
(** ** utils/helpers.js *)

Module Helpers.
Import JS.

(** Truncate string to max length, for an integer [maxLength]. *)
Definition truncateString (str : jsstring) (maxLength : Z) (suffix : jsstring)
    : jsstring :=
  if (Z.of_nat (List.length str) <=? maxLength)%Z then str
  else substring0 str (maxLength - Z.of_nat (List.length suffix))%Z ++ suffix.

End Helpers.

(* ================================================================= *)
(** ** services/scopeDetectionService.js *)

Module ScopeDetection.
Import JS RegExp.
Local Open Scope Z_scope.

Record Score := {
  score_inScope : Z;
  score_outOfScope : Z;
  score_patterns : Z
}.

Record ScopeResult := {
  inScope : bool;
  confidence : Q;
  reason : string;
  category : string;
  score : Score
}.

(** Calculate in-scope score based on keywords. *)
Definition calculateInScopeScore (tokens : list jsstring) : Z :=
  let score :=
    fold_left
      (fun score token =>
         let inScopeKeywords := CONSTANTS.IN_SCOPE_KEYWORDS in
         (* Exact match *)
         let score :=
           if Array_includes inScopeKeywords token then score + 10 else score in
         (* Partial match (contains keyword) *)
         if existsb (fun keyword => includes keyword token || includes token keyword)
              inScopeKeywords
         then score + 3 else score)
      tokens 0 in
  Z.min score 100.

(** Calculate out-of-scope score based on keywords. *)
Definition calculateOutOfScopeScore (tokens : list jsstring) : Z :=
  let score :=
    fold_left
      (fun score token =>
         let outOfScopeKeywords := CONSTANTS.OUT_OF_SCOPE_KEYWORDS in
         (* Exact match *)
         let score :=
           if Array_includes outOfScopeKeywords token then score + 15 else score in
         (* Partial match *)
         if existsb (fun keyword => includes keyword token || includes token keyword)
              outOfScopeKeywords
         then score + 5 else score)
      tokens 0 in
  Z.min score 100.

(** Detect specific patterns in message. *)
Definition detectPatterns (message : jsstring) : Z :=
  let score := 0 in
  (* Part number pattern *)
  let score :=
    if test CONSTANTS.PATTERNS.PART_NUMBER message then score + 40 else score in
  (* Model number pattern *)
  let score :=
    if test CONSTANTS.PATTERNS.MODEL_NUMBER message then score + 30 else score in
  (* Appliance type pattern: /refrigerator|fridge|dishwasher/i *)
  let score :=
    if test (alts [lit_i "refrigerator"; lit_i "fridge"; lit_i "dishwasher"]) message
    then score + 20 else score in
  Z.min score 100.

(** Categorize an in-scope message. *)
Definition categorizeInScopeMessage (tokens : list jsstring) : string :=
  let message := join (js " ") tokens in
  (* /install|setup|assemble|attach|how to/i *)
  if test (alts [lit_i "install"; lit_i "setup"; lit_i "assemble";
                 lit_i "attach"; lit_i "how to"]) message
  then "installation_inquiry"
  (* /compatible|fit|work with|support|match/i *)
  else if test (alts [lit_i "compatible"; lit_i "fit"; lit_i "work with";
                      lit_i "support"; lit_i "match"]) message
  then "compatibility_check"
  (* /broken|not working|fix|repair|problem|issue|leak|freeze|noise/i *)
  else if test (alts [lit_i "broken"; lit_i "not working"; lit_i "fix";
                      lit_i "repair"; lit_i "problem"; lit_i "issue";
                      lit_i "leak"; lit_i "freeze"; lit_i "noise"]) message
  then "troubleshooting_inquiry"
  (* /order|price|cost|buy|cart|checkout|shipping/i *)
  else if test (alts [lit_i "order"; lit_i "price"; lit_i "cost"; lit_i "buy";
                      lit_i "cart"; lit_i "checkout"; lit_i "shipping"]) message
  then "order_support"
  else "parts_inquiry".

(** [Math.min(0.95, score / 100)] *)
Definition confidenceOf (score : Z) : Q :=
  Qmin (95 # 100) (inject_Z score / inject_Z 100)%Q.

(** Detect if message is in scope.  Every operation of the [try] block is
    total on a string argument, so the [catch] branch is not reached and is
    left out. *)
Definition detectScope (message : jsstring) : ScopeResult :=
  let tokens := split (Chars isWhiteSpace 1 None) message in
  let inScopeScore := calculateInScopeScore tokens in
  let outOfScopeScore := calculateOutOfScopeScore tokens in
  let patternScore := detectPatterns message in
  let hasPartNumber := test CONSTANTS.PATTERNS.PART_NUMBER message in
  let hasModelNumber := test CONSTANTS.PATTERNS.MODEL_NUMBER message in
  (* If explicit patterns are found, it's definitely in scope *)
  if hasPartNumber || hasModelNumber then
    {| inScope := true;
       confidence := 1%Q;
       reason := "Explicit part or model number pattern detected";
       category := "parts_inquiry";
       score := {| score_inScope := 100; score_outOfScope := 0;
                   score_patterns := 100 |} |}
  (* If contains strong out-of-scope indicators, it's out of scope *)
  else if outOfScopeScore >? inScopeScore + 20 then
    {| inScope := false;
       confidence := confidenceOf outOfScopeScore;
       reason := "Message contains out-of-scope keywords";
       category := "out_of_scope";
       score := {| score_inScope := inScopeScore;
                   score_outOfScope := outOfScopeScore;
                   score_patterns := patternScore |} |}
  (* If strong in-scope indicators *)
  else if inScopeScore >? outOfScopeScore + 10 then
    let category := categorizeInScopeMessage tokens in
    {| inScope := true;
       confidence := confidenceOf inScopeScore;
       reason := "Message contains relevant keywords";
       category := category;
       score := {| score_inScope := inScopeScore;
                   score_outOfScope := outOfScopeScore;
                   score_patterns := patternScore |} |}
  (* Default: if no strong signals, consider it in scope *)
  else
    {| inScope := true;
       confidence := (1 # 2)%Q;
       reason := "Message appears to be parts-related";
       category := "general_inquiry";
       score := {| score_inScope := inScopeScore;
                   score_outOfScope := outOfScopeScore;
                   score_patterns := patternScore |} |}.

End ScopeDetection.

(* ================================================================= *)
(** ** services/intentClassificationService.js *)

Module IntentClassification.
Import JS RegExp.
Local Open Scope Z_scope.

Record Context := {
  partNumber : option jsstring;
  modelNumber : option jsstring;
  applianceType : option string
}.

Record IntentResult := {
  intent : string;
  confidence : Q;
  keywords : list jsstring;
  context : option Context;          (* [None] is the empty object *)
  scores : list (string * Z)
}.

(** Score a message against intent keywords: the state of the two nested
    [forEach] loops is the pair of [score] and [matches]. *)
Definition scoreStep (token : jsstring) (st : Z * list jsstring) (keyword : jsstring)
    : Z * list jsstring :=
  let '(score, matches) := st in
  (* Exact match *)
  if streq token keyword
     || streq token (replace_g (Chars isWhiteSpace 1 None) (fun _ => []) keyword)
  then (score + 15, matches ++ [keyword])
  (* Partial match (keyword contains token) *)
  else if includes keyword token && (2 <? List.length token)%nat
  then (score + 5, matches ++ [keyword])
  else (score, matches).

Definition scoreIntent (tokens : list jsstring) (intentKeywords : list jsstring) : Z :=
  let '(score, matches) :=
    fold_left
      (fun st token => fold_left (scoreStep token) intentKeywords st)
      tokens (0, []) in
  (* Bonus for multiple matches *)
  let score :=
    if (1 <? List.length matches)%nat
    then score + Z.of_nat (List.length matches) * 5
    else score in
  Z.min score 100.

(** Find keywords in message that match intent keywords. *)
Definition findMatchingKeywords (tokens : list jsstring)
    (intentKeywords : option (list jsstring)) : list jsstring :=
  let intentKeywords := match intentKeywords with Some l => l | None => [] end in
  fold_left
    (fun matches token =>
       fold_left
         (fun matches keyword =>
            if (streq token keyword || includes keyword token)
               && negb (Array_includes matches keyword)
            then matches ++ [keyword] else matches)
         intentKeywords matches)
    tokens [].

(** Detect appliance type from message. *)
Definition detectApplianceType (message : jsstring) : option string :=
  (* /refrigerator|fridge|ice maker|freezer/i *)
  if test (alts [lit_i "refrigerator"; lit_i "fridge"; lit_i "ice maker";
                 lit_i "freezer"]) message
  then Some CONSTANTS.APPLIANCE_TYPE.REFRIGERATOR
  (* /dishwasher|wash|spray arm|filter|rinse/i *)
  else if test (alts [lit_i "dishwasher"; lit_i "wash"; lit_i "spray arm";
                      lit_i "filter"; lit_i "rinse"]) message
  then Some CONSTANTS.APPLIANCE_TYPE.DISHWASHER
  else None.

(** [Array.prototype.reduce] without an initial value; a [TypeError] on an
    empty array. *)
Definition reduce {A : Type} (f : A -> A -> A) (l : list A) : option A :=
  match l with
  | [] => None
  | x :: l' => Some (fold_left f l' x)
  end.

(** The callback of the reduction that finds the highest scoring intent. *)
Definition higher (prev current : string * Z) : string * Z :=
  if snd prev >? snd current then prev else current.

(** [arr?.[0] || null] *)
Definition firstOrNull (arr : list jsstring) : option jsstring :=
  match arr with
  | [] => None
  | [] :: _ => None
  | x :: _ => Some x
  end.

Definition keywordsOf (key : string) : list jsstring :=
  match CONSTANTS.get CONSTANTS.INTENT_KEYWORDS key with
  | Some l => l
  | None => []
  end.

(** Classify intent of a message. *)
Definition classifyIntent (message : jsstring) : IntentResult :=
  let tokens := split (Chars isWhiteSpace 1 None) message in
  let entities := Sanitizers.extractEntities message in
  (* Score each intent category *)
  let intentScores :=
    [ (CONSTANTS.INTENT.PRODUCT_SEARCH,
         scoreIntent tokens (keywordsOf "product_search"));
      (CONSTANTS.INTENT.COMPATIBILITY_CHECK,
         scoreIntent tokens (keywordsOf "compatibility_check"));
      (CONSTANTS.INTENT.INSTALLATION_GUIDE,
         scoreIntent tokens (keywordsOf "installation_guide"));
      (CONSTANTS.INTENT.TROUBLESHOOTING,
         scoreIntent tokens (keywordsOf "troubleshooting"));
      (CONSTANTS.INTENT.ORDER_SUPPORT,
         scoreIntent tokens (keywordsOf "order_support")) ] in
  (* Find highest scoring intent *)
  match reduce higher intentScores with
  | Some topIntent =>
      let intent := fst topIntent in
      let score := snd topIntent in
      let confidence := Qmin (inject_Z score / inject_Z 100)%Q (99 # 100) in
      (* Find matching keywords *)
      let matchingKeywords :=
        findMatchingKeywords tokens (CONSTANTS.get CONSTANTS.INTENT_KEYWORDS intent) in
      let context :=
        {| partNumber := firstOrNull (Sanitizers.partNumbers entities);
           modelNumber := firstOrNull (Sanitizers.modelNumbers entities);
           applianceType := detectApplianceType message |} in
      {| intent := intent;
         confidence := confidence;
         keywords := matchingKeywords;
         context := Some context;
         scores := intentScores |}
  | None =>
      (* Default to general inquiry on error *)
      {| intent := CONSTANTS.INTENT.GENERAL_INQUIRY;
         confidence := (3 # 10)%Q;
         keywords := [];
         context := None;
         scores := [] |}
  end.

End IntentClassification.

(* ================================================================= *)
(** * Notions used in the statements *)

Module Notions.
Import JS RegExp.

(** A continuation of the matcher that accepts every rest of the input. *)
Definition total (k : cont) : Prop := forall t, k t <> None.

(** ** Messages *)

Definition isLetter (c : char) : bool := isUpperAZ c || isLowerAZ c.

(** No code unit of the message is an upper-case ASCII letter (as after
    [toLowerCase]). *)
Definition allLowercase (s : jsstring) : bool :=
  forallb (fun c => negb (isUpperAZ c)) s.

(** [ps] followed by six digits occurs in the message. *)
Definition containsPs6 (message : jsstring) : Prop :=
  exists pre d post,
    message = pre ++ js "ps" ++ d ++ post /\ List.length d = 6%nat /\
    Forall (fun c => isDigit c = true) d.

(** The tokens both classifiers compute: [message.split(/\s+/)]. *)
Definition tokensOf (message : jsstring) : list jsstring :=
  split (Chars isWhiteSpace 1 None) message.

(** ** Scope detector *)

Definition hasPattern (message : jsstring) : bool :=
  test CONSTANTS.PATTERNS.PART_NUMBER message
  || test CONSTANTS.PATTERNS.MODEL_NUMBER message.

(** The record returned by the pattern override. *)
Definition explicitPattern : ScopeDetection.ScopeResult :=
  {| ScopeDetection.inScope := true;
     ScopeDetection.confidence := 1%Q;
     ScopeDetection.reason := "Explicit part or model number pattern detected";
     ScopeDetection.category := "parts_inquiry";
     ScopeDetection.score :=
       {| ScopeDetection.score_inScope := 100;
          ScopeDetection.score_outOfScope := 0;
          ScopeDetection.score_patterns := 100 |} |}.

(** ** Sanitizer *)

(** [str.replace(/\s+/g, ' ')], the first half of [normalizeWhitespace]. *)
Definition collapse (s : jsstring) : jsstring :=
  replace_g (Chars isWhiteSpace 1 None) (fun _ => js " ") s.

(** The string does not start with white space. *)
Definition headOk (s : jsstring) : bool :=
  match s with
  | [] => true
  | c :: _ => negb (isWhiteSpace c)
  end.

(** Every white-space code unit is a space, and no two are adjacent. *)
Fixpoint wsNormal (s : jsstring) : bool :=
  match s with
  | [] => true
  | c :: s' =>
      (if isWhiteSpace c then (c =? space)%N && headOk s' else true)
      && wsNormal s'
  end.

Definition noControl (s : jsstring) : Prop :=
  Forall (fun c => Sanitizers.isControl c = false) s.

(** The [cleaned] field of the result for a string. *)
Definition clean (x : jsstring) : jsstring :=
  Sanitizers.normalizeWhitespace
    (Sanitizers.trimWhitespace (Sanitizers.removeControlCharacters x)).

(** ** Intent classifier *)

(** The comparison made for an exact match, the trigger phrase also tried
    without its white space. *)
Definition exactMatch (token keyword : jsstring) : bool :=
  streq token keyword
  || streq token (replace_g (Chars isWhiteSpace 1 None) (fun _ => []) keyword).

Definition partialMatch (token keyword : jsstring) : bool :=
  includes keyword token && (2 <? List.length token)%nat.

(** Points of one token against one trigger phrase. *)
Definition points (token keyword : jsstring) : Z :=
  if exactMatch token keyword then 15%Z
  else if partialMatch token keyword then 5%Z
  else 0%Z.

Definition matched (token keyword : jsstring) : bool :=
  exactMatch token keyword || partialMatch token keyword.

Definition sumZ (l : list Z) : Z := fold_right Z.add 0%Z l.

Definition totalPoints (tokens keywords : list jsstring) : Z :=
  sumZ (flat_map (fun token => map (points token) keywords) tokens).

(** The trigger phrases recorded, one entry per matching pair of a token
    and a phrase, in scan order. *)
Definition matchesOf (tokens keywords : list jsstring) : list jsstring :=
  flat_map (fun token => filter (matched token) keywords) tokens.

Definition bonus (n : Z) : Z := if (1 <? n)%Z then (5 * n)%Z else 0%Z.

(** The score the specification describes: the bonus counts the distinct
    trigger phrases matched. *)
Definition scoreIntent_spec (tokens keywords : list jsstring) : Z :=
  Z.min (totalPoints tokens keywords
         + bonus (Z.of_nat (List.length (Set_of (matchesOf tokens keywords)))))
        100.

(** The intent the specification describes: the first one, in iteration
    order, among those with the highest score. *)
Fixpoint firstHighest (l : list (string * Z)) : option (string * Z) :=
  match l with
  | [] => None
  | x :: l' =>
      match firstHighest l' with
      | Some y => if (snd y >? snd x)%Z then Some y else Some x
      | None => Some x
      end
  end.

(** ** Keyword scores *)

(** The token is one of the keywords. *)
Definition exactIn (keywords : list jsstring) (token : jsstring) : bool :=
  Array_includes keywords token.

(** The token occurs in a keyword, or a keyword occurs in the token. *)
Definition partialIn (keywords : list jsstring) (token : jsstring) : bool :=
  existsb (fun keyword => includes keyword token || includes token keyword)
    keywords.

Definition countIf (f : jsstring -> bool) (l : list jsstring) : Z :=
  Z.of_nat (List.length (filter f l)).

(** The step of [findMatchingKeywords]: push the keyword when it passes
    the test [f] and is not in the array yet. *)
Definition addIfNew (f : jsstring -> bool) (matches : list jsstring)
    (keyword : jsstring) : list jsstring :=
  if f keyword && negb (Array_includes matches keyword)
  then matches ++ [keyword] else matches.

(** ** HTML encoding *)

(** The six characters [encodeHtmlEntities] replaces. *)
Definition isHtmlSpecial (c : char) : bool :=
  oneOf (js "&<>" ++ [34%N] ++ js "'/") c.

(** What [encodeHtmlEntities] writes for one code unit. *)
Definition htmlEntity (c : char) : jsstring :=
  if isHtmlSpecial c then
    match Sanitizers.htmlEscapeMap_get Sanitizers.htmlEscapeMap [c] with
    | Some v => v
    | None => js "undefined"
    end
  else [c].

(** The characters that open or close markup or an attribute value:
    [<], [>], the two quotes and [/]. *)
Definition isMarkup (c : char) : bool := oneOf [60; 62; 34; 39; 47]%N c.

(** ** Entities *)

(** [h] occurs in [s]. *)
Definition occursIn (h s : jsstring) : Prop :=
  exists pre post, s = pre ++ h ++ post.

(** [PS] followed by at least six digits. *)
Definition isPartNumber (x : jsstring) : Prop :=
  exists ds, x = js "PS" ++ ds /\ (6 <= List.length ds)%nat /\
             Forall (fun c => isDigit c = true) ds.

End Notions.

(* ================================================================= *)
(** * Properties *)

Import JS RegExp Notions.

(** ** The matcher *)

Section Matcher.

Lemma total_Some : total Some.
Proof. intros t; discriminate. Qed.

(** A quantifier whose minimum is reached cannot fail before a
    continuation that accepts everything. *)
Lemma rep_total p hi k : total k -> total (fun s => rep p 0 hi s k).
Proof.
  intros Hk s; revert hi.
  induction s as [|c s IH]; intros hi; simpl.
  - apply Hk.
  - destruct hi as [[|n]|]; try apply Hk.
    + destruct (p c); [|apply Hk].
      destruct (rep p 0 (ohpred (Some (S n))) s k) eqn:E; [discriminate|apply Hk].
    + destruct (p c); [|apply Hk].
      destruct (rep p 0 (ohpred None) s k) eqn:E; [discriminate|apply Hk].
Qed.

Lemma rep_stop p hi c s k :
  p c = false -> rep p 0 hi (c :: s) k = k (c :: s).
Proof.
  intros H; simpl. rewrite H. destruct hi as [[|n]|]; reflexivity.
Qed.

Lemma rep_stop_zero p s k : rep p 0 (Some O) s k = k s.
Proof. destruct s; reflexivity. Qed.

Lemma rep_need p lo hi c s k :
  p c = true -> rep p (S lo) hi (c :: s) k = rep p lo (ohpred hi) s k.
Proof. intros H; simpl. now rewrite H. Qed.

Lemma rep_refuse p lo hi c s k :
  p c = false -> rep p (S lo) hi (c :: s) k = None.
Proof. intros H; simpl. now rewrite H. Qed.

(** The greedy step never loses a success of the longer attempt. *)
Lemma rep_more p hi c s k :
  hi <> Some O -> p c = true ->
  rep p 0 (ohpred hi) s k <> None -> rep p 0 hi (c :: s) k <> None.
Proof.
  intros Hhi Hc Hs; simpl.
  destruct hi as [[|n]|]; try congruence; rewrite Hc;
    match goal with |- context [match ?x with _ => _ end] => destruct x end;
    congruence.
Qed.

Lemma test_exec r s rest : exec r s = Some rest -> test r s = true.
Proof. intros H. destruct s; simpl; now rewrite H. Qed.

Lemma test_tail r c s : test r s = true -> test r (c :: s) = true.
Proof. intros H; simpl. destruct (exec r (c :: s)); auto. Qed.

Lemma test_app r pre s : test r s = true -> test r (pre ++ s) = true.
Proof.
  intros H; induction pre as [|c pre IH]; simpl app; auto using test_tail.
Qed.

Lemma test_false_inv r c s :
  test r (c :: s) = false -> exec r (c :: s) = None /\ test r s = false.
Proof. simpl. destruct (exec r (c :: s)); [discriminate|auto]. Qed.

(** A match somewhere yields a hit of the global scan, and conversely. *)
Lemma hits_scan_nil r s : test r s = false -> hits (scan r 0 s) = [].
Proof.
  induction s as [|c s IH]; intros H.
  - simpl in *. destruct (exec r []); [discriminate|reflexivity].
  - apply test_false_inv in H as [He Ht].
    cbn [scan]. rewrite He. simpl. auto.
Qed.

Lemma hits_scan_cons r s : test r s = true -> hits (scan r 0 s) <> [].
Proof.
  induction s as [|c s IH]; intros H.
  - simpl in *. destruct (exec r []); [discriminate|discriminate].
  - cbn [scan]. cbn [test] in H.
    destruct (exec r (c :: s)) as [rest|].
    + destruct (List.length (c :: s) - List.length rest)%nat; discriminate.
    + simpl. auto.
Qed.

Lemma match_g_None r s : test r s = false -> match_g r s = None.
Proof. intros H; unfold match_g. now rewrite hits_scan_nil. Qed.

Lemma match_g_Some r s :
  test r s = true -> exists x l, match_g r s = Some (x :: l).
Proof.
  intros H; unfold match_g. apply hits_scan_cons in H.
  destruct (hits (scan r 0 s)) as [|x l]; [congruence|eauto].
Qed.

(** [includes] finds an occurrence. *)
Lemma startsWith_app s sub : startsWith s sub = true -> exists post, s = sub ++ post.
Proof.
  revert s; induction sub as [|a sub IH]; intros s H.
  - now exists s.
  - destruct s as [|c s]; [discriminate|]. simpl in H.
    apply andb_true_iff in H as [Hc H]. apply N.eqb_eq in Hc; subst c.
    destruct (IH _ H) as [post ->]. now exists post.
Qed.

Lemma includes_app s sub :
  includes s sub = true -> exists pre post, s = pre ++ sub ++ post.
Proof.
  induction s as [|c s IH]; cbn [includes]; intros H.
  - destruct sub; [now exists [], []|discriminate].
  - apply orb_true_iff in H as [H|H].
    + apply startsWith_app in H as [post ->]. now exists [], post.
    + destruct (IH H) as (pre & post & ->). now exists (c :: pre), post.
Qed.

End Matcher.

(** ** Character classes *)

Ltac no_if t :=
  lazymatch t with
  | context [if _ then _ else _] => fail
  | _ => idtac
  end.

Ltac class_cases :=
  unfold isLetter, icase, upperCode, lowerCode, isDigit, isUpperAZ, isLowerAZ,
    inRange;
  repeat (match goal with
          | |- context [(?a <=? ?b)%N] =>
              no_if a; no_if b; destruct (N.leb_spec a b)
          | |- context [(?a =? ?b)%N] =>
              no_if a; no_if b; destruct (N.eqb_spec a b)
          end; cbn [andb orb negb]);
  intros; try discriminate; try reflexivity; try lia.

Lemma icase_letter c : isLetter c = true -> icase isUpperAZ c = true.
Proof. class_cases. Qed.

Lemma icase_digit c : icase isDigit c = isDigit c.
Proof. class_cases. Qed.

Lemma digit_not_upper c : isDigit c = true -> isUpperAZ c = false.
Proof. class_cases. Qed.

Lemma digit_not_letter_i c : isDigit c = true -> icase isUpperAZ c = false.
Proof. class_cases. Qed.

Lemma icase_P_lower c :
  icase (N.eqb 80) c = true -> isUpperAZ c = false -> c = 112%N.
Proof. class_cases. Qed.

Lemma icase_S_lower c :
  icase (N.eqb 83) c = true -> isUpperAZ c = false -> c = 115%N.
Proof. class_cases. Qed.

Lemma allLowercase_app a b :
  allLowercase (a ++ b) = allLowercase a && allLowercase b.
Proof. apply forallb_app. Qed.

(** ** The patterns of the scope detector and of the entity extractor *)

Section Patterns.
Import CONSTANTS.

Lemma test_inv r s :
  test r s = true -> exists pre suf rest, s = pre ++ suf /\ exec r suf = Some rest.
Proof.
  induction s as [|c s IH]; cbn [test]; intros H.
  - destruct (exec r []) as [rest|] eqn:E; [|discriminate].
    now exists [], [], rest.
  - destruct (exec r (c :: s)) as [rest|] eqn:E.
    + now exists [], (c :: s), rest.
    + destruct (IH H) as (pre & suf & rest & -> & E').
      now exists (c :: pre), suf, rest.
Qed.

(** [PS] (in either case) and six digits start a match of the part-number
    pattern, whatever follows. *)
Lemma part_number_shape (r := PATTERNS.PART_NUMBER) c1 c2 d1 d2 d3 d4 d5 d6 post :
  icase (N.eqb 80) c1 = true -> icase (N.eqb 83) c2 = true ->
  Forall (fun d => isDigit d = true) [d1; d2; d3; d4; d5; d6] ->
  exec r (c1 :: c2 :: d1 :: d2 :: d3 :: d4 :: d5 :: d6 :: post) <> None.
Proof.
  intros H1 H2 Hd.
  repeat match goal with
         | H : Forall _ (_ :: _) |- _ => inversion H; subst; clear H
         end.
  unfold r, exec, PATTERNS.PART_NUMBER, one. cbn [seqs m].
  rewrite rep_need by assumption. cbn [ohpred option_map pred].
  rewrite (rep_stop_zero _ _ _).
  rewrite rep_need by assumption. cbn [ohpred option_map pred].
  rewrite (rep_stop_zero _ _ _).
  repeat (rewrite rep_need by (rewrite icase_digit; assumption)).
  apply rep_total, total_Some.
Qed.

(** One to three letters and five digits start a match of the model-number
    pattern of the scope detector, whatever follows. *)
Lemma model_number_shape (r := PATTERNS.MODEL_NUMBER) l d1 d2 d3 d4 d5 post :
  isLetter l = true ->
  Forall (fun d => isDigit d = true) [d1; d2; d3; d4; d5] ->
  exec r (l :: d1 :: d2 :: d3 :: d4 :: d5 :: post) <> None.
Proof.
  intros Hl Hd.
  repeat match goal with
         | H : Forall _ (_ :: _) |- _ => inversion H; subst; clear H
         end.
  unfold r, exec, PATTERNS.MODEL_NUMBER. cbn [seqs m].
  (* [A-Z]{1,3} takes the letter and stops at the first digit *)
  rewrite rep_need by now apply icase_letter.
  rewrite rep_stop by now apply digit_not_letter_i.
  (* \d{3,4} takes four digits *)
  do 3 (rewrite rep_need by (rewrite icase_digit; assumption)).
  cbn [ohpred option_map pred].
  apply rep_more; [discriminate|rewrite icase_digit; assumption|].
  cbn [ohpred option_map pred]. rewrite rep_stop_zero.
  (* [A-Z]{0,2} is empty, \d+ takes the fifth digit *)
  rewrite rep_stop by now apply digit_not_letter_i.
  rewrite rep_need by (rewrite icase_digit; assumption).
  (* the rest of the pattern accepts anything *)
  apply rep_total. intros t. apply rep_total. intros u.
  apply rep_total, total_Some.
Qed.

(** A match of the case-sensitive model pattern starts with an upper-case
    letter. *)
Lemma modelPattern_upper s rest :
  exec Sanitizers.modelPattern s = Some rest ->
  exists c s', s = c :: s' /\ isUpperAZ c = true.
Proof.
  unfold exec, Sanitizers.modelPattern. cbn [seqs m].
  destruct s as [|c s']; [discriminate|].
  destruct (isUpperAZ c) eqn:E.
  - intros _. now exists c, s'.
  - now rewrite rep_refuse.
Qed.

Lemma modelPattern_lowercase s :
  allLowercase s = true -> test Sanitizers.modelPattern s = false.
Proof.
  induction s as [|c s IH]; intros H; cbn [test].
  - destruct (exec Sanitizers.modelPattern []) eqn:E; [|reflexivity].
    apply modelPattern_upper in E as (c & s' & E & _). discriminate.
  - simpl in H. apply andb_true_iff in H as [Hc Hs].
    destruct (exec Sanitizers.modelPattern (c :: s)) eqn:E; [|auto].
    apply modelPattern_upper in E as (c' & s' & E & Hu).
    injection E as <- <-. rewrite Hu in Hc. discriminate.
Qed.

(** What a match of the part-number pattern starts with. *)
Lemma part_number_inv (r := PATTERNS.PART_NUMBER) s rest :
  exec r s = Some rest ->
  exists c1 c2 d post,
    s = c1 :: c2 :: d ++ post /\ List.length d = 6%nat /\
    icase (N.eqb 80) c1 = true /\ icase (N.eqb 83) c2 = true /\
    Forall (fun x => isDigit x = true) d.
Proof.
  unfold r, exec, PATTERNS.PART_NUMBER, one. cbn [seqs m].
  destruct s as [|c1 s]; [discriminate|].
  destruct (icase (N.eqb 80) c1) eqn:E1; [|now rewrite rep_refuse].
  rewrite rep_need by assumption. cbn [ohpred option_map pred].
  rewrite rep_stop_zero.
  destruct s as [|c2 s]; [discriminate|].
  destruct (icase (N.eqb 83) c2) eqn:E2; [|now rewrite rep_refuse].
  rewrite rep_need by assumption. cbn [ohpred option_map pred].
  rewrite rep_stop_zero.
  do 6 (destruct s as [|? s]; [discriminate|];
        match goal with
        | |- rep ?p _ _ (?x :: _) _ = _ -> _ =>
            let E := fresh "D" in
            destruct (p x) eqn:E; [|now rewrite rep_refuse];
            rewrite rep_need by assumption; rewrite icase_digit in E
        end).
  intros _. exists c1, c2. eexists [_; _; _; _; _; _], s.
  do 4 (split; [first [reflexivity|assumption]|]).
  repeat constructor; assumption.
Qed.

End Patterns.

(** ** Entity extractor *)

Section EntityExtractor.
Import Sanitizers.

Lemma Set_add_nonempty acc x : acc <> [] -> Set_add acc x <> [].
Proof.
  unfold Set_add. destruct (Array_includes acc x); auto.
  destruct acc; [congruence|discriminate].
Qed.

Lemma fold_Set_add_nonempty l acc : acc <> [] -> fold_left Set_add l acc <> [].
Proof.
  revert acc; induction l as [|x l IH]; intros acc H; simpl; auto.
  apply IH, Set_add_nonempty, H.
Qed.

Lemma Set_of_nonempty x l : Set_of (x :: l) <> [].
Proof. unfold Set_of; simpl. apply fold_Set_add_nonempty. discriminate. Qed.

(** The extractor reports a part number exactly when its pattern matches
    somewhere in the message. *)
Lemma partNumbers_nil message :
  partNumbers (extractEntities message) = [] <-> test partPattern message = false.
Proof.
  unfold extractEntities; cbn [partNumbers].
  destruct (test partPattern message) eqn:T.
  - destruct (match_g_Some _ _ T) as (x & l & ->). simpl.
    split; [|discriminate]. intros H. now apply Set_of_nonempty in H.
  - rewrite (match_g_None _ _ T). now split.
Qed.

Lemma modelNumbers_lowercase message :
  allLowercase message = true -> modelNumbers (extractEntities message) = [].
Proof.
  intros H. unfold extractEntities; cbn [modelNumbers].
  now rewrite (match_g_None _ _ (modelPattern_lowercase _ H)).
Qed.

Lemma partPattern_lowercase message :
  allLowercase message = true ->
  test partPattern message = true <-> containsPs6 message.
Proof.
  intros L; split.
  - intros T. apply test_inv in T as (pre & suf & rest & -> & E).
    apply part_number_inv in E as (c1 & c2 & d & post & -> & Hd & H1 & H2 & D).
    rewrite allLowercase_app in L. apply andb_true_iff in L as [_ L].
    simpl in L. apply andb_true_iff in L as [L1 L].
    apply andb_true_iff in L as [L2 _].
    apply negb_true_iff in L1, L2.
    rewrite (icase_P_lower _ H1 L1), (icase_S_lower _ H2 L2).
    now exists pre, d, post.
  - intros (pre & d & post & -> & Hd & D).
    apply test_app.
    do 7 (destruct d as [|? d]; try discriminate).
    destruct (exec partPattern (js "ps" ++ [c; c0; c1; c2; c3; c4] ++ post)) eqn:E.
    + eapply test_exec, E.
    + exfalso. revert E. apply part_number_shape; auto.
Qed.

(** C1 (the code at the example of the spec): the part number is found,
    but the model pattern does not match [WDT780SAEM1], whose digits are
    followed by four letters where the pattern allows two; no model number
    is reported. *)
Theorem extractEntities_spec_example :
  extractEntities (js "Is PS11752778 compatible with WDT780SAEM1?")
  = {| partNumbers := [js "PS11752778"]; modelNumbers := [] |}.
Proof. vm_compute. reflexivity. Qed.

(** The model number that the documentation of [extractModelNumber] gives
    as its example is not matched by the pattern, at any index. *)
Lemma modelPattern_misses_documented_example :
  test modelPattern (js "WDT780SAEM1") = false /\
  extractModelNumber (js "WDT780SAEM1") = None.
Proof. vm_compute. split; reflexivity. Qed.

(** The matcher on a few inputs: the model pattern backtracks from
    [WDT7801] + [SA] to [WDT780] + [1] + [S]; a global match resumes after
    the previous one; [split] keeps the empty pieces at both ends. *)
Example modelPattern_backtracks :
  match_g modelPattern (js "WDT7801SAEM1 A1234")
  = Some [js "WDT7801S"; js "A1234"].
Proof. vm_compute. reflexivity. Qed.

Example partPattern_global :
  extractEntities (js "ps1234567 PS7654321, PS1234567 and PS12345")
  = {| partNumbers := [js "PS1234567"; js "PS7654321"]; modelNumbers := [] |}.
Proof. vm_compute. reflexivity. Qed.

Example split_keeps_empty_pieces :
  split (Chars isWhiteSpace 1 None) (js " a  b ") = [js ""; js "a"; js "b"; js ""].
Proof. vm_compute. reflexivity. Qed.

Example encodeHtmlEntities_example :
  encodeHtmlEntities (js "<a href='x'>R&D</a>")
  = js "&lt;a href=&#39;x&#39;&gt;R&amp;D&lt;&#x2F;a&gt;".
Proof. vm_compute. reflexivity. Qed.

End EntityExtractor.

(** ** Scope detector *)

Section ScopeDetector.
Import CONSTANTS ScopeDetection.

Lemma detectScope_override message :
  hasPattern message = true -> detectScope message = explicitPattern.
Proof.
  unfold hasPattern, detectScope; intros H; cbv zeta. now rewrite H.
Qed.

(** C4: a message in which [PS123456] occurs is in scope with confidence 1
    and category [parts_inquiry], whatever else it contains. *)
Theorem detectScope_PS123456 message :
  includes message (js "PS123456") = true ->
  inScope (detectScope message) = true /\
  confidence (detectScope message) = 1%Q /\
  category (detectScope message) = "parts_inquiry"%string.
Proof.
  intros H. apply includes_app in H as (pre & post & ->).
  rewrite detectScope_override; [now repeat split|].
  unfold hasPattern. apply orb_true_iff; left. apply test_app.
  destruct (exec PATTERNS.PART_NUMBER (js "PS123456" ++ post)) eqn:E.
  - eapply test_exec, E.
  - exfalso. revert E. apply part_number_shape; repeat constructor.
Qed.

Lemma detectScope_PS123456_witness :
  let message := js "PS123456 weather joke" in
  includes message (js "PS123456") = true /\
  inScope (detectScope message) = true /\
  confidence (detectScope message) = 1%Q /\
  category (detectScope message) = "parts_inquiry"%string.
Proof.
  split; [reflexivity|].
  apply (detectScope_PS123456 (js "PS123456 weather joke")). reflexivity.
Defined.

(** Without a pattern, the decision compares the two keyword scores. *)
Lemma detectScope_keywords message
    (i := calculateInScopeScore (tokensOf message))
    (o := calculateOutOfScopeScore (tokensOf message)) :
  hasPattern message = false ->
  detectScope message =
    let sc := {| score_inScope := i; score_outOfScope := o;
                 score_patterns := detectPatterns message |} in
    if (o >? i + 20)%Z then
      {| inScope := false; confidence := confidenceOf o;
         reason := "Message contains out-of-scope keywords";
         category := "out_of_scope"; score := sc |}
    else if (i >? o + 10)%Z then
      {| inScope := true; confidence := confidenceOf i;
         reason := "Message contains relevant keywords";
         category := categorizeInScopeMessage (tokensOf message); score := sc |}
    else
      {| inScope := true; confidence := (1 # 2)%Q;
         reason := "Message appears to be parts-related";
         category := "general_inquiry"; score := sc |}.
Proof.
  unfold hasPattern, detectScope; intros H; cbv zeta. now rewrite H.
Qed.

(** C5: without a part or model pattern, scores 31 against 20 classify the
    message in scope by the keyword rule, and scores 30 against 20 fall
    into the default branch (confidence 0.5, [general_inquiry]): both
    thresholds are strict. *)
Theorem detectScope_threshold_strict message :
  test PATTERNS.PART_NUMBER message = false ->
  test PATTERNS.MODEL_NUMBER message = false ->
  (calculateInScopeScore (tokensOf message) = 31%Z ->
   calculateOutOfScopeScore (tokensOf message) = 20%Z ->
   inScope (detectScope message) = true /\
   reason (detectScope message) = "Message contains relevant keywords"%string /\
   confidence (detectScope message) = (31 # 100)%Q /\
   category (detectScope message) = categorizeInScopeMessage (tokensOf message))
  /\
  (calculateInScopeScore (tokensOf message) = 30%Z ->
   calculateOutOfScopeScore (tokensOf message) = 20%Z ->
   inScope (detectScope message) = true /\
   reason (detectScope message) = "Message appears to be parts-related"%string /\
   confidence (detectScope message) = (1 # 2)%Q /\
   category (detectScope message) = "general_inquiry"%string).
Proof.
  intros Hp Hm.
  assert (H : hasPattern message = false) by (unfold hasPattern; now rewrite Hp, Hm).
  rewrite (detectScope_keywords _ H); cbv zeta.
  split; intros Hi Ho; rewrite Hi, Ho.
  - change (20 >? 31 + 20)%Z with false. change (31 >? 20 + 10)%Z with true.
    now repeat split.
  - change (20 >? 30 + 20)%Z with false. change (30 >? 20 + 10)%Z with false.
    now repeat split.
Qed.

Lemma detectScope_threshold_strict_witness :
  let m1 := js "joke part doors doors doors doors doors doors" in
  let m2 := js "joke doors doors doors doors doors doors doors doors doors doors" in
  (calculateInScopeScore (tokensOf m1) = 31%Z /\
   calculateOutOfScopeScore (tokensOf m1) = 20%Z /\
   inScope (detectScope m1) = true /\
   reason (detectScope m1) = "Message contains relevant keywords"%string /\
   confidence (detectScope m1) = (31 # 100)%Q /\
   category (detectScope m1) = categorizeInScopeMessage (tokensOf m1))
  /\
  (calculateInScopeScore (tokensOf m2) = 30%Z /\
   calculateOutOfScopeScore (tokensOf m2) = 20%Z /\
   inScope (detectScope m2) = true /\
   reason (detectScope m2) = "Message appears to be parts-related"%string /\
   confidence (detectScope m2) = (1 # 2)%Q /\
   category (detectScope m2) = "general_inquiry"%string).
Proof.
  split.
  - split; [vm_compute; reflexivity|]. split; [vm_compute; reflexivity|].
    apply (detectScope_threshold_strict
             (js "joke part doors doors doors doors doors doors"));
      vm_compute; reflexivity.
  - split; [vm_compute; reflexivity|]. split; [vm_compute; reflexivity|].
    apply (detectScope_threshold_strict
             (js "joke doors doors doors doors doors doors doors doors doors doors"));
      vm_compute; reflexivity.
Defined.

(** C6: the joke about the weather scores 50 out of scope against 12 in
    scope, more than 20 apart, and is rejected. *)
Theorem detectScope_joke_weather :
  let r := detectScope (js "tell me a joke about the weather") in
  inScope r = false /\ category r = "out_of_scope"%string /\
  score_outOfScope (score r) = 50%Z /\ score_inScope (score r) = 12%Z.
Proof. vm_compute. repeat split. Qed.

(** C10, as far as the code goes: in a message without upper-case letters
    where one to three letters are immediately followed by at least five
    digits, the scope detector sees a model number (confidence 1,
    [parts_inquiry]) while the extractor reports no model number; it
    reports no part number either exactly when no [ps] followed by six
    digits occurs, its part pattern being case-insensitive. *)
Theorem lowercase_identifier_scope_vs_entities message pre ls ds post :
  message = pre ++ ls ++ ds ++ post ->
  (1 <= List.length ls <= 3)%nat -> Forall (fun c => isLetter c = true) ls ->
  (5 <= List.length ds)%nat -> Forall (fun c => isDigit c = true) ds ->
  allLowercase message = true ->
  (inScope (detectScope message) = true /\
   confidence (detectScope message) = 1%Q /\
   category (detectScope message) = "parts_inquiry"%string) /\
  Sanitizers.modelNumbers (Sanitizers.extractEntities message) = [] /\
  (Sanitizers.partNumbers (Sanitizers.extractEntities message) = []
   <-> ~ containsPs6 message).
Proof.
  intros -> Hls Ll Hds Ld L. split; [|split].
  - rewrite detectScope_override; [now repeat split|].
    unfold hasPattern. apply orb_true_iff; right.
    destruct (exists_last (l := ls)) as (ls' & l & ->);
      [intros ->; simpl in Hls; lia|].
    apply Forall_app in Ll as [_ Ll]. inversion Ll as [|? ? Hl _]; subst.
    do 5 (destruct ds as [|? ds]; [simpl in Hds; lia|]).
    repeat match goal with
           | H : Forall _ (_ :: _) |- _ => inversion H; subst; clear H
           end.
    replace (pre ++ (ls' ++ [l]) ++ (c :: c0 :: c1 :: c2 :: c3 :: ds) ++ post)
      with ((pre ++ ls') ++ l :: c :: c0 :: c1 :: c2 :: c3 :: ds ++ post)
      by (rewrite <- !app_assoc; reflexivity).
    apply test_app.
    destruct (exec PATTERNS.MODEL_NUMBER
                (l :: c :: c0 :: c1 :: c2 :: c3 :: ds ++ post)) eqn:E.
    + eapply test_exec, E.
    + exfalso. revert E.
      apply model_number_shape; [assumption|repeat constructor; assumption].
  - now apply modelNumbers_lowercase.
  - rewrite partNumbers_nil, <- (partPattern_lowercase _ L).
    destruct (test Sanitizers.partPattern _); split; congruence.
Qed.

Lemma lowercase_identifier_scope_vs_entities_witness :
  let message := js "abc12345" in
  (message = [] ++ js "abc" ++ js "12345" ++ [] /\
   allLowercase message = true) /\
  (inScope (detectScope message) = true /\
   confidence (detectScope message) = 1%Q /\
   category (detectScope message) = "parts_inquiry"%string) /\
  Sanitizers.modelNumbers (Sanitizers.extractEntities message) = [] /\
  (Sanitizers.partNumbers (Sanitizers.extractEntities message) = []
   <-> ~ containsPs6 message).
Proof.
  split; [split; reflexivity|].
  apply (@lowercase_identifier_scope_vs_entities
           (js "abc12345") [] (js "abc") (js "12345") []).
  - reflexivity.
  - simpl; lia.
  - repeat constructor.
  - simpl; lia.
  - repeat constructor.
  - reflexivity.
Defined.

(** C10 does not hold as stated: a lower-case part number is such a
    message, and the extractor finds it (and upper-cases it), its part
    pattern carrying the [i] flag. *)
Lemma lowercase_part_number_is_extracted :
  let message := js "ps123456" in
  allLowercase message = true /\
  message = js "ps" ++ js "123456" /\
  forallb isLetter (js "ps") = true /\ forallb isDigit (js "123456") = true /\
  detectScope message = explicitPattern /\
  Sanitizers.partNumbers (Sanitizers.extractEntities message) = [js "PS123456"] /\
  Sanitizers.partNumbers (Sanitizers.extractEntities message) <> [].
Proof. vm_compute. repeat split; discriminate. Qed.

End ScopeDetector.

(** ** Sanitizer *)

Section Sanitizer.
Import Sanitizers.

(** *** The two global replacements, as list functions *)

Lemma exec_one_nil p : exec (one p) [] = None.
Proof. reflexivity. Qed.

Lemma exec_one p c s : exec (one p) (c :: s) = if p c then Some s else None.
Proof.
  unfold exec, one; cbn [m rep]. destruct (p c); [|reflexivity].
  apply rep_stop_zero.
Qed.

Lemma replace_one p f s :
  replace_g (one p) f s = flat_map (fun c => if p c then f [c] else [c]) s.
Proof.
  unfold replace_g. induction s as [|c s IH]; [reflexivity|].
  cbn [scan]. rewrite exec_one. destruct (p c) eqn:E.
  - replace (List.length (c :: s) - List.length s)%nat with 1%nat
      by (cbn [List.length]; lia).
    cbn [flat_map firstn]. rewrite E, IH. reflexivity.
  - cbn [flat_map]. rewrite E, IH. reflexivity.
Qed.

Lemma removeControlCharacters_filter s :
  removeControlCharacters s = filter (fun c => negb (isControl c)) s.
Proof.
  unfold removeControlCharacters. rewrite replace_one.
  induction s as [|c s IH]; [reflexivity|]. simpl.
  destruct (isControl c); simpl; now rewrite IH.
Qed.

Lemma rep_star_Some p s : rep p 0 None s Some = Some (dropWhile p s).
Proof.
  induction s as [|c s IH]; [reflexivity|]. simpl.
  destruct (p c); [|reflexivity]. now rewrite IH.
Qed.

Lemma exec_plus p c s :
  exec (Chars p 1 None) (c :: s) = if p c then Some (dropWhile p s) else None.
Proof.
  unfold exec; cbn [m rep]. destruct (p c); [|reflexivity].
  apply rep_star_Some.
Qed.

Lemma scan_skip r n s :
  (n <= List.length s)%nat -> scan r n s = scan r 0 (skipn n s).
Proof.
  revert s; induction n as [|n IH]; intros s H; [reflexivity|].
  destruct s as [|c s]; [simpl in H; lia|].
  simpl in H. cbn [scan skipn]. apply IH. lia.
Qed.

Lemma dropWhile_length p s : (List.length (dropWhile p s) <= List.length s)%nat.
Proof.
  induction s as [|c s IH]; simpl; [lia|]. destruct (p c); simpl; lia.
Qed.

Lemma dropWhile_skipn p s :
  skipn (List.length s - List.length (dropWhile p s)) s = dropWhile p s.
Proof.
  induction s as [|c s IH]; [reflexivity|]. simpl dropWhile.
  destruct (p c).
  - pose proof (dropWhile_length p s).
    replace (List.length (c :: s) - List.length (dropWhile p s))%nat
      with (S (List.length s - List.length (dropWhile p s)))
      by (cbn [List.length]; lia).
    exact IH.
  - now rewrite Nat.sub_diag.
Qed.

Lemma collapse_nil : collapse [] = [].
Proof. reflexivity. Qed.

Lemma collapse_cons c s :
  collapse (c :: s) =
  if isWhiteSpace c then space :: collapse (dropWhile isWhiteSpace s)
  else c :: collapse s.
Proof.
  unfold collapse, replace_g. cbn [scan]. rewrite exec_plus.
  destruct (isWhiteSpace c); [|reflexivity].
  pose proof (dropWhile_length isWhiteSpace s).
  replace (List.length (c :: s) - List.length (dropWhile isWhiteSpace s))%nat
    with (S (List.length s - List.length (dropWhile isWhiteSpace s)))
    by (cbn [List.length]; lia).
  cbn [flat_map]. rewrite scan_skip by lia. rewrite dropWhile_skipn.
  reflexivity.
Qed.

(** Induction along the runs of white space. *)
Lemma collapse_ind (P : jsstring -> Prop) :
  P [] ->
  (forall c s, isWhiteSpace c = true -> P (dropWhile isWhiteSpace s) -> P (c :: s)) ->
  (forall c s, isWhiteSpace c = false -> P s -> P (c :: s)) ->
  forall s, P s.
Proof.
  intros Hnil Hws Hch s.
  assert (H : forall n t, (List.length t <= n)%nat -> P t).
  { induction n as [|n IH]; intros [|c t] Ht; auto.
    - simpl in Ht; lia.
    - simpl in Ht. destruct (isWhiteSpace c) eqn:E.
      + apply Hws; auto. apply IH.
        pose proof (dropWhile_length isWhiteSpace t). lia.
      + apply Hch; auto. apply IH. lia. }
  apply (H (List.length s)). lia.
Qed.

(** *** Clean strings *)

Lemma dropWhile_headOk s : headOk s = true -> dropWhile isWhiteSpace s = s.
Proof.
  destruct s as [|c s]; [reflexivity|]. simpl.
  now destruct (isWhiteSpace c).
Qed.

Lemma headOk_dropWhile s : headOk (dropWhile isWhiteSpace s) = true.
Proof.
  induction s as [|c s IH]; [reflexivity|]. simpl.
  destruct (isWhiteSpace c) eqn:E; [exact IH|]. simpl. now rewrite E.
Qed.

Lemma dropWhile_suffix p s : exists pre, s = pre ++ dropWhile p s.
Proof.
  induction s as [|c s [pre IH]]; [now exists []|]. simpl.
  destruct (p c).
  - exists (c :: pre). simpl. now rewrite <- IH.
  - now exists [].
Qed.

Lemma headOk_app_l a b : a <> [] -> headOk (a ++ b) = headOk a.
Proof. destruct a; [congruence|reflexivity]. Qed.

Lemma trim_infix s : exists x y, s = x ++ trim s ++ y.
Proof.
  unfold trim.
  destruct (dropWhile_suffix isWhiteSpace s) as [p1 H1].
  destruct (dropWhile_suffix isWhiteSpace (rev (dropWhile isWhiteSpace s)))
    as [p2 H2].
  exists p1, (rev p2).
  rewrite <- rev_app_distr, <- H2, rev_involutive. exact H1.
Qed.

Lemma trim_headOk s : headOk (trim s) = true /\ headOk (rev (trim s)) = true.
Proof.
  unfold trim. set (a := dropWhile isWhiteSpace s).
  set (b := dropWhile isWhiteSpace (rev a)).
  split.
  - destruct (dropWhile_suffix isWhiteSpace (rev a)) as [p2 H2].
    fold b in H2. apply (f_equal (@rev char)) in H2.
    rewrite rev_involutive, rev_app_distr in H2.
    destruct (rev b) as [|x t] eqn:E; [reflexivity|].
    pose proof (headOk_dropWhile s) as Ha. fold a in Ha.
    rewrite H2 in Ha. exact Ha.
  - rewrite rev_involutive. apply headOk_dropWhile.
Qed.

Lemma trim_fix s : headOk s = true -> headOk (rev s) = true -> trim s = s.
Proof.
  intros H1 H2. unfold trim.
  rewrite (dropWhile_headOk _ H1), (dropWhile_headOk _ H2).
  apply rev_involutive.
Qed.

Lemma wsNormal_app_r a b : wsNormal (a ++ b) = true -> wsNormal b = true.
Proof.
  induction a as [|c a IH]; [auto|]. simpl.
  intros H. apply andb_true_iff in H as [_ H]. auto.
Qed.

Lemma headOk_prefix a b : headOk (a ++ b) = true -> headOk a = true.
Proof. destruct a; auto. Qed.

Lemma wsNormal_app_l a b : wsNormal (a ++ b) = true -> wsNormal a = true.
Proof.
  induction a as [|c a IH]; [auto|]. simpl.
  intros H. apply andb_true_iff in H as [H1 H2].
  rewrite (IH H2), andb_true_r.
  destruct (isWhiteSpace c); [|reflexivity].
  apply andb_true_iff in H1 as [-> H1]. simpl.
  eapply headOk_prefix, H1.
Qed.

Lemma wsNormal_trim s : wsNormal s = true -> wsNormal (trim s) = true.
Proof.
  intros H. destruct (trim_infix s) as (x & y & E). rewrite E in H.
  eapply wsNormal_app_l, wsNormal_app_r, H.
Qed.

Lemma noControl_trim s : noControl s -> noControl (trim s).
Proof.
  unfold noControl. intros H. destruct (trim_infix s) as (x & y & E).
  rewrite E in H. apply Forall_app in H as [_ H].
  now apply Forall_app in H as [H _].
Qed.

Lemma noControl_dropWhile p s : noControl s -> noControl (dropWhile p s).
Proof.
  unfold noControl. intros H. destruct (dropWhile_suffix p s) as [pre E].
  rewrite E in H. now apply Forall_app in H as [_ H].
Qed.

Lemma noControl_remove s : noControl (removeControlCharacters s).
Proof.
  rewrite removeControlCharacters_filter. apply Forall_forall.
  intros c Hc. apply filter_In in Hc as [_ Hc]. now apply negb_true_iff.
Qed.

Lemma removeControlCharacters_fix s : noControl s -> removeControlCharacters s = s.
Proof.
  rewrite removeControlCharacters_filter.
  induction 1 as [|c s Hc _ IH]; [reflexivity|]. simpl.
  now rewrite Hc, IH.
Qed.

Lemma collapse_head c s :
  isWhiteSpace c = false -> headOk (collapse (c :: s)) = true.
Proof. intros H. rewrite collapse_cons, H. simpl. now rewrite H. Qed.

Lemma collapse_headOk s : headOk s = true -> headOk (collapse s) = true.
Proof.
  destruct s as [|c s]; [reflexivity|]. simpl. intros H.
  apply collapse_head. now apply negb_true_iff.
Qed.

Lemma wsNormal_collapse s : wsNormal (collapse s) = true.
Proof.
  induction s as [|c s Hc IH|c s Hc IH] using collapse_ind.
  - reflexivity.
  - rewrite collapse_cons, Hc. simpl. rewrite IH.
    now rewrite collapse_headOk by apply headOk_dropWhile.
  - rewrite collapse_cons, Hc. simpl. now rewrite Hc, IH.
Qed.

Lemma noControl_collapse s : noControl s -> noControl (collapse s).
Proof.
  unfold noControl.
  induction s as [|c s Hc IH|c s Hc IH] using collapse_ind; intros H.
  - constructor.
  - rewrite collapse_cons, Hc. inversion H; subst. constructor; [reflexivity|].
    apply IH. now apply noControl_dropWhile.
  - rewrite collapse_cons, Hc. inversion H; subst. constructor; auto.
Qed.

Lemma collapse_fix s : wsNormal s = true -> collapse s = s.
Proof.
  induction s as [|c s IH]; [reflexivity|]. simpl. intros H.
  apply andb_true_iff in H as [H1 H2]. rewrite collapse_cons.
  destruct (isWhiteSpace c).
  - apply andb_true_iff in H1 as [Hc Hh]. apply N.eqb_eq in Hc.
    rewrite (dropWhile_headOk _ Hh), (IH H2). now subst c.
  - now rewrite (IH H2).
Qed.

Lemma clean_is_clean x :
  noControl (clean x) /\ wsNormal (clean x) = true /\
  headOk (clean x) = true /\ headOk (rev (clean x)) = true.
Proof.
  unfold clean, normalizeWhitespace, trimWhitespace. fold (collapse (trim (removeControlCharacters x))).
  split; [|split].
  - apply noControl_trim, noControl_collapse, noControl_trim, noControl_remove.
  - apply wsNormal_trim, wsNormal_collapse.
  - apply trim_headOk.
Qed.

Lemma clean_fix s :
  noControl s -> wsNormal s = true -> headOk s = true -> headOk (rev s) = true ->
  clean s = s.
Proof.
  intros Hc Hw Hh Hl. unfold clean, normalizeWhitespace, trimWhitespace.
  rewrite (removeControlCharacters_fix Hc), (trim_fix _ Hh Hl).
  fold (collapse s). rewrite (collapse_fix _ Hw). now apply trim_fix.
Qed.

Lemma clean_idempotent x : clean (clean x) = clean x.
Proof.
  destruct (clean_is_clean x) as (Hc & Hw & Hh & Hl). now apply clean_fix.
Qed.

Variable toLowerCase : jsstring -> jsstring.

(** C8: sanitizing the cleaned text again returns the same cleaned text. *)
Theorem sanitizeMessage_cleaned_idempotent x :
  exists r1 r2,
    sanitizeMessage toLowerCase (VString x) = Return r1 /\
    sanitizeMessage toLowerCase (VString (cleaned r1)) = Return r2 /\
    cleaned r2 = cleaned r1.
Proof.
  do 2 eexists. split; [reflexivity|]. split; [reflexivity|].
  cbn [cleaned]. apply clean_idempotent.
Qed.

(** C9: the sanitizer throws exactly on a non-string argument (the error
    [Message must be a string]) and returns a record for every string. *)
Theorem sanitizeMessage_throws_iff_not_string v :
  (if typeof_is_string v
   then exists r, sanitizeMessage toLowerCase v = Return r
   else sanitizeMessage toLowerCase v = Throw (Error "Message must be a string"))
  /\ ((exists e, sanitizeMessage toLowerCase v = Throw e)
      <-> typeof_is_string v = false).
Proof.
  destruct v; simpl; (split; [try reflexivity; eauto|]);
    (split; [intros [e H]; try reflexivity; discriminate
            |intros H; try discriminate; eauto]).
Qed.

End Sanitizer.

(** ** Intent classifier *)

Section IntentClassifier.
Import CONSTANTS IntentClassification.
Local Open Scope Z_scope.

(** *** Scoring *)

Lemma sumZ_app a b : sumZ (a ++ b) = sumZ a + sumZ b.
Proof. induction a as [|x a IH]; simpl; [reflexivity|]. rewrite IH. lia. Qed.

Lemma scoreStep_fold token keywords score matches :
  fold_left (scoreStep token) keywords (score, matches)
  = (score + sumZ (map (points token) keywords),
     matches ++ filter (matched token) keywords).
Proof.
  revert score matches.
  induction keywords as [|k ks IH]; intros score matches; simpl.
  - now rewrite Z.add_0_r, app_nil_r.
  - unfold points at 1, matched at 1.
    fold (exactMatch token k). fold (partialMatch token k).
    destruct (exactMatch token k); [|destruct (partialMatch token k)];
      rewrite IH; cbn [orb]; rewrite <- ?app_assoc; cbn [app];
      f_equal; lia.
Qed.

Lemma scoreIntent_fold tokens keywords score matches :
  fold_left (fun st token => fold_left (scoreStep token) keywords st)
    tokens (score, matches)
  = (score + totalPoints tokens keywords, matches ++ matchesOf tokens keywords).
Proof.
  unfold totalPoints, matchesOf. revert score matches.
  induction tokens as [|t ts IH]; intros score matches; simpl.
  - now rewrite Z.add_0_r, app_nil_r.
  - rewrite scoreStep_fold, IH, sumZ_app, <- app_assoc. f_equal. lia.
Qed.

(** C3, as the code computes it: the points of every pair of a token and a
    trigger phrase (15 for an exact match, otherwise 5 for a phrase that
    contains a token longer than two code units), plus 5 for every match
    recorded when more than one was recorded, repeated phrases counted each
    time; the total is capped at 100. *)
Theorem scoreIntent_closed_form tokens keywords :
  scoreIntent tokens keywords
  = Z.min (totalPoints tokens keywords
           + bonus (Z.of_nat (List.length (matchesOf tokens keywords))))
          100.
Proof.
  unfold scoreIntent. rewrite scoreIntent_fold. simpl app.
  unfold bonus. rewrite Z.add_0_l.
  destruct (Nat.ltb_spec 1 (List.length (matchesOf tokens keywords)));
    destruct (Z.ltb_spec 1 (Z.of_nat (List.length (matchesOf tokens keywords))));
    try lia; f_equal; lia.
Qed.

(** C3 does not hold as stated: the same trigger phrase matched by two
    tokens counts twice in the bonus of the code, where the distinct
    phrases number one and earn no bonus. *)
Lemma scoreIntent_counts_repeated_matches :
  let tokens := tokensOf (js "how how") in
  let keywords := keywordsOf "product_search" in
  matchesOf tokens keywords = [js "show me"; js "show me"] /\
  scoreIntent tokens keywords = 20 /\
  scoreIntent_spec tokens keywords = 10 /\
  scoreIntent tokens keywords <> scoreIntent_spec tokens keywords.
Proof. vm_compute. repeat split; discriminate. Qed.

(** *** Winner selection *)

(** The reduction keeps the previous entry only when its score is strictly
    higher: the result has the highest score, and every entry after it has
    a strictly lower one. *)
Lemma fold_higher_last l : forall pre x mid,
  Forall (fun e => snd e <= snd x) pre ->
  Forall (fun e => snd e < snd x) mid ->
  exists before after,
    pre ++ x :: mid ++ l = before ++ fold_left higher l x :: after /\
    Forall (fun e => snd e <= snd (fold_left higher l x)) before /\
    Forall (fun e => snd e < snd (fold_left higher l x)) after.
Proof.
  induction l as [|y l IH]; intros pre x mid Hpre Hmid; simpl.
  - exists pre, mid. now rewrite app_nil_r.
  - unfold higher at 2 4 6. destruct (Z.gtb_spec (snd x) (snd y)) as [H|H].
    + destruct (IH pre x (mid ++ [y])) as (b & a & E & Hb & Ha); auto.
      { apply Forall_app; split; auto. }
      exists b, a. rewrite <- E, <- app_assoc. auto.
    + destruct (IH (pre ++ x :: mid) y []) as (b & a & E & Hb & Ha); auto.
      { apply Forall_app; split.
        - eapply Forall_impl; [|exact Hpre]. simpl; intros; lia.
        - constructor; [lia|].
          eapply Forall_impl; [|exact Hmid]. simpl; intros; lia. }
      exists b, a. rewrite <- E, <- app_assoc. auto.
Qed.

(** C2, as the code selects: the five intents are scored in declaration
    order, the winner has the highest score, and among several intents with
    that score it is the last one in iteration order. *)
Theorem classifyIntent_winner message :
  let r := classifyIntent message in
  map fst (scores r)
  = ["product_search"; "compatibility_check"; "installation_guide";
     "troubleshooting"; "order_support"]%string /\
  exists before w after,
    scores r = before ++ (intent r, w) :: after /\
    Forall (fun e => snd e <= w) before /\
    Forall (fun e => snd e < w) after.
Proof.
  unfold classifyIntent; cbv zeta. cbn [reduce].
  split; [reflexivity|]. cbn [scores intent].
  match goal with
  | |- context [fold_left higher ?l ?x] =>
      destruct (@fold_higher_last l [] x []) as (b & a & E & Hb & Ha);
        [constructor|constructor|];
        exists b, (snd (fold_left higher l x)), a
  end.
  rewrite <- surjective_pairing. simpl app in E. auto.
Qed.

(** C2 does not hold as stated: a message without any trigger phrase ties
    all five intents at 0, and the code answers with the last one,
    [order_support], where the first one is [product_search]. *)
Lemma classifyIntent_tie_goes_to_last :
  let r := classifyIntent (js "hello") in
  map snd (scores r) = [0; 0; 0; 0; 0] /\
  option_map fst (firstHighest (scores r)) = Some "product_search"%string /\
  intent r = "order_support"%string.
Proof. vm_compute. repeat split. Qed.

(** C7: the installation question about a part number. *)
Theorem classifyIntent_install_part :
  let r := classifyIntent (js "how do i install PS11752778") in
  intent r = "installation_guide"%string /\
  option_map partNumber (context r) = Some (Some (js "PS11752778")) /\
  scores r = [("product_search", 5); ("compatibility_check", 0);
              ("installation_guide", 50); ("troubleshooting", 0);
              ("order_support", 0)]%string.
Proof. vm_compute. repeat split. Qed.

End IntentClassifier.

(* ================================================================= *)
(** * Further properties of the code *)

Unset Implicit Arguments.

(** ** What a match consumes *)

Section Matches.

Lemma rep_suffix p : forall s lo hi k x,
  rep p lo hi s k = Some x ->
  exists pre t, s = pre ++ t /\ k t = Some x /\
                Forall (fun c => p c = true) pre /\ (lo <= List.length pre)%nat.
Proof.
  induction s as [|c s IH]; intros lo hi k x H.
  - destruct lo; [|discriminate]. exists [], []. simpl in H. auto.
  - destruct lo as [|lo].
    + assert (Hk : k (c :: s) = Some x ->
                   exists pre t, c :: s = pre ++ t /\ k t = Some x /\
                     Forall (fun c => p c = true) pre /\ (0 <= List.length pre)%nat).
      { intros Hk. exists [], (c :: s). simpl. auto with arith. }
      simpl in H. destruct (p c) eqn:Pc.
      * assert (Hgo : forall hi', match rep p 0 hi' s k with
                                  | Some r => Some r
                                  | None => k (c :: s)
                                  end = Some x ->
                      exists pre t, c :: s = pre ++ t /\ k t = Some x /\
                        Forall (fun c => p c = true) pre /\ (0 <= List.length pre)%nat).
        { intros hi' Hm. destruct (rep p 0 hi' s k) eqn:E; [|auto].
          injection Hm as ->. destruct (IH _ _ _ _ E) as (pre & t & -> & Hk' & Hp & _).
          exists (c :: pre), t. simpl. auto with arith. }
        destruct hi as [[|n]|]; eauto.
      * destruct hi as [[|n]|]; auto.
    + simpl in H. destruct (p c) eqn:Pc; [|discriminate].
      destruct (IH _ _ _ _ H) as (pre & t & -> & Hk' & Hp & Hl).
      exists (c :: pre), t. simpl. repeat split; auto with arith.
Qed.

(** The continuation of a match runs on a suffix of the input. *)
Lemma m_suffix r : forall s k x,
  m r s k = Some x -> exists pre t, s = pre ++ t /\ k t = Some x.
Proof.
  induction r as [|p lo hi|r1 IH1 r2 IH2|r1 IH1 r2 IH2|r IH];
    intros s k x H; cbn [m] in H.
  - now exists [], s.
  - destruct (rep_suffix _ _ _ _ _ _ H) as (pre & t & E & Hk & _). eauto.
  - destruct (IH1 _ _ _ H) as (pre1 & t1 & -> & H2).
    destruct (IH2 _ _ _ H2) as (pre2 & t & -> & Hk).
    exists (pre1 ++ pre2), t. now rewrite <- app_assoc.
  - destruct (m r1 s k) eqn:E.
    + injection H as ->. eauto.
    + eauto.
  - eauto.
Qed.

Lemma exec_suffix r s rest : exec r s = Some rest -> exists pre, s = pre ++ rest.
Proof.
  intros H. destruct (m_suffix _ _ _ _ H) as (pre & t & -> & Ht).
  injection Ht as ->. now exists pre.
Qed.

(** Every match reported by a global scan occurs in the input, and the
    pattern matches there. *)
Lemma hits_scan_match r : forall s skip h,
  In h (hits (scan r skip s)) ->
  exists pre rest, s = pre ++ h ++ rest /\ exec r (h ++ rest) = Some rest.
Proof.
  induction s as [|c s IH]; intros skip h H.
  - cbn [scan] in H. destruct skip; [|destruct H].
    destruct (exec r []) as [l|] eqn:E; [|destruct H].
    destruct H as [<-|[]]. exists [], []. simpl.
    destruct (exec_suffix _ _ _ E) as [pre Hp].
    symmetry in Hp. apply app_eq_nil in Hp as [_ ->]. auto.
  - cbn [scan] in H. destruct skip as [|n].
    + destruct (exec r (c :: s)) as [rest|] eqn:E.
      * destruct (exec_suffix _ _ _ E) as [pre Hp].
        assert (Hlen : (List.length (c :: s) - List.length rest)%nat
                       = List.length pre).
        { rewrite Hp, length_app. lia. }
        rewrite Hlen in H. destruct pre as [|a pre].
        -- simpl in H. destruct H as [<-|H].
           ++ simpl in Hp. subst rest. exists [], (c :: s). auto.
           ++ destruct (IH _ _ H) as (pre' & rest' & -> & He).
              exists (c :: pre'), rest'. auto.
        -- cbn [List.length hits flat_map app] in H.
           destruct H as [<-|H].
           ++ exists [], rest. rewrite Hp.
              change (S (List.length pre)) with (List.length (a :: pre)).
              rewrite firstn_app, Nat.sub_diag, firstn_all. simpl firstn.
              rewrite app_nil_r. split; [reflexivity|].
              now rewrite <- Hp.
           ++ destruct (IH _ _ H) as (pre' & rest' & -> & He).
              exists (c :: pre'), rest'. auto.
      * simpl in H. destruct (IH _ _ H) as (pre' & rest' & -> & He).
        exists (c :: pre'), rest'. auto.
    + destruct (IH _ _ H) as (pre' & rest' & -> & He).
      exists (c :: pre'), rest'. auto.
Qed.

Lemma match_g_match r s l h :
  match_g r s = Some l -> In h l ->
  occursIn h s /\ exists rest, exec r (h ++ rest) = Some rest.
Proof.
  unfold match_g. intros E H.
  assert (Hh : In h (hits (scan r 0 s))).
  { destruct (hits (scan r 0 s)); [discriminate|]. now injection E as <-. }
  destruct (hits_scan_match _ _ _ _ Hh) as (pre & rest & -> & He).
  split; [now exists pre, rest|eauto].
Qed.

End Matches.

(** ** Arrays used as sets *)

Section Sets.

Lemma streq_eq a b : streq a b = true <-> a = b.
Proof. unfold streq. destruct (list_eq_dec N.eq_dec a b); split; congruence. Qed.

Lemma Array_includes_In l x : Array_includes l x = true <-> In x l.
Proof.
  unfold Array_includes. rewrite existsb_exists. split.
  - intros (y & Hy & E). apply streq_eq in E. now subst.
  - intros H. exists x. split; [assumption|now apply streq_eq].
Qed.

Lemma fold_Set_add_spec l : forall acc,
  NoDup acc ->
  NoDup (fold_left Set_add l acc) /\
  (forall x, In x (fold_left Set_add l acc) <-> In x acc \/ In x l) /\
  exists tl, fold_left Set_add l acc = acc ++ tl.
Proof.
  induction l as [|y l IH]; intros acc Hn; simpl.
  - split; [assumption|]. split; [tauto|]. exists []. now rewrite app_nil_r.
  - unfold Set_add at 2 4 6. destruct (Array_includes acc y) eqn:E.
    + apply Array_includes_In in E.
      destruct (IH acc Hn) as (H1 & H2 & H3). split; [assumption|].
      split; [|assumption]. intros x. rewrite H2. intuition (subst; auto).
    + assert (Hy : ~ In y acc).
      { intros H. apply Array_includes_In in H. congruence. }
      assert (Hn' : NoDup (acc ++ [y])).
      { apply NoDup_app; auto; [repeat constructor; auto|].
        intros x Hx [<-|[]]. auto. }
      destruct (IH _ Hn') as (H1 & H2 & tl & H3). split; [assumption|].
      split.
      * intros x. rewrite H2, in_app_iff. simpl. tauto.
      * exists (y :: tl). rewrite H3, <- app_assoc. reflexivity.
Qed.

Lemma Set_of_NoDup l : NoDup (Set_of l).
Proof. apply fold_Set_add_spec. constructor. Qed.

Lemma Set_of_In l x : In x (Set_of l) <-> In x l.
Proof.
  unfold Set_of. destruct (fold_Set_add_spec l []) as (_ & H & _).
  - constructor.
  - rewrite H. simpl. tauto.
Qed.

Lemma Set_of_hd l : hd_error (Set_of l) = hd_error l.
Proof.
  destruct l as [|x l]; [reflexivity|].
  change (Set_of (x :: l)) with (fold_left Set_add l [x]).
  destruct (fold_Set_add_spec l [x]) as (_ & _ & tl & ->).
  - repeat constructor. auto.
  - reflexivity.
Qed.

End Sets.

(** ** Entities: what the extractor reports *)

Section Entities.
Import Sanitizers.

Lemma dropWhile_split p s :
  exists pre, s = pre ++ dropWhile p s /\ Forall (fun c => p c = true) pre.
Proof.
  induction s as [|c s (pre & E & Hp)]; [now exists []|]. simpl.
  destruct (p c) eqn:Pc.
  - exists (c :: pre). simpl. rewrite <- E. auto.
  - now exists [].
Qed.

(** A match of the part pattern: [P], [S] in either case, then at least
    six digits. *)
Lemma partPattern_exec s rest :
  exec partPattern s = Some rest ->
  exists c1 c2 ds,
    s = c1 :: c2 :: ds ++ rest /\
    icase (N.eqb 80) c1 = true /\ icase (N.eqb 83) c2 = true /\
    (6 <= List.length ds)%nat /\ Forall (fun x => isDigit x = true) ds.
Proof.
  unfold exec, partPattern, one. cbn [seqs m].
  destruct s as [|c1 s]; [discriminate|].
  destruct (icase (N.eqb 80) c1) eqn:E1; [|now rewrite rep_refuse].
  rewrite rep_need by assumption. cbn [ohpred option_map pred].
  rewrite rep_stop_zero.
  destruct s as [|c2 s]; [discriminate|].
  destruct (icase (N.eqb 83) c2) eqn:E2; [|now rewrite rep_refuse].
  rewrite rep_need by assumption. cbn [ohpred option_map pred].
  rewrite rep_stop_zero.
  do 6 (destruct s as [|? s]; [discriminate|];
        match goal with
        | |- rep ?p _ _ (?x :: _) _ = _ -> _ =>
            let E := fresh "D" in
            destruct (p x) eqn:E; [|now rewrite rep_refuse];
            rewrite rep_need by assumption; rewrite icase_digit in E
        end).
  cbn [ohpred option_map]. rewrite rep_star_Some. intros [= <-].
  destruct (dropWhile_split (icase isDigit) s) as (pre & E & Hp).
  exists c1, c2, ([c; c0; c3; c4; c5; c6] ++ pre).
  split; [|split; [assumption|split; [assumption|split]]].
  - cbn [app]. now rewrite <- E.
  - rewrite length_app. simpl. lia.
  - apply Forall_app. split; [repeat constructor; assumption|].
    eapply Forall_impl; [|exact Hp]. intros a Ha. cbv beta in Ha.
    now rewrite icase_digit in Ha.
Qed.

Lemma upperCode_P c : icase (N.eqb 80) c = true -> upperCode c = 80%N.
Proof. class_cases. Qed.

Lemma upperCode_S c : icase (N.eqb 83) c = true -> upperCode c = 83%N.
Proof. class_cases. Qed.

Lemma upperCode_digit c : isDigit c = true -> upperCode c = c.
Proof. class_cases. Qed.

Lemma toUpperCase_digits ds :
  Forall (fun c => isDigit c = true) ds -> toUpperCase ds = ds.
Proof.
  unfold toUpperCase. induction 1 as [|c ds Hc _ IH]; [reflexivity|].
  simpl. now rewrite upperCode_digit, IH.
Qed.

Lemma partPattern_hit message l h :
  match_g partPattern message = Some l -> In h l ->
  occursIn h message /\ isPartNumber (toUpperCase h).
Proof.
  intros E H. destruct (match_g_match _ _ _ _ E H) as (Ho & rest & He).
  split; [assumption|].
  apply partPattern_exec in He as (c1 & c2 & ds & Hs & H1 & H2 & Hl & Hd).
  change (c1 :: c2 :: ds ++ rest) with ((c1 :: c2 :: ds) ++ rest) in Hs.
  apply app_inv_tail in Hs. subst h.
  exists ds. unfold toUpperCase. simpl map.
  rewrite (upperCode_P _ H1), (upperCode_S _ H2).
  fold (toUpperCase ds). rewrite (toUpperCase_digits _ Hd). auto.
Qed.

Lemma modelPattern_hit message l h :
  match_g modelPattern message = Some l -> In h l ->
  occursIn h message /\ exists c t, h = c :: t /\ isUpperAZ c = true.
Proof.
  intros E H. destruct (match_g_match _ _ _ _ E H) as (Ho & rest & He).
  split; [assumption|].
  pose proof He as Hu. apply modelPattern_upper in Hu as (c & s' & Hs & Hc).
  destruct h as [|a t].
  - (* an empty match would leave the whole input, but the first class
       takes a letter *)
    exfalso. simpl in He. unfold exec, modelPattern in He. cbn [seqs m] in He.
    apply rep_suffix in He as (pre & t & Hr & Hk & _ & Hl).
    do 5 (apply rep_suffix in Hk as (? & ? & -> & Hk & _ & _)).
    injection Hk as ->.
    apply (f_equal (@List.length char)) in Hr.
    rewrite !length_app in Hr. lia.
  - simpl in Hs. injection Hs as <- _. eauto.
Qed.

Lemma partNumbers_In message x :
  In x (partNumbers (extractEntities message)) ->
  exists l h, match_g partPattern message = Some l /\ In h l /\ x = toUpperCase h.
Proof.
  unfold extractEntities; cbn [partNumbers]. rewrite Set_of_In.
  destruct (match_g partPattern message) as [l|]; [|intros []].
  simpl. rewrite in_map_iff. intros (h & <- & Hh). eauto.
Qed.

Lemma modelNumbers_In message x :
  In x (modelNumbers (extractEntities message)) ->
  exists l, match_g modelPattern message = Some l /\ In x l /\
            startsWith x (js "PS") = false.
Proof.
  unfold extractEntities; cbn [modelNumbers]. rewrite Set_of_In.
  destruct (match_g modelPattern message) as [l|]; [|intros []].
  simpl. rewrite filter_In. intros (Hx & Hf). apply negb_true_iff in Hf. eauto.
Qed.

(** Neither array of the result holds a string twice. *)
Theorem extractEntities_no_duplicates message :
  NoDup (partNumbers (extractEntities message)) /\
  NoDup (modelNumbers (extractEntities message)).
Proof. split; apply Set_of_NoDup. Qed.

(** Every part number reported is [PS] followed by at least six digits,
    and is the upper-case form of a substring of the message. *)
Theorem partNumbers_shape message x :
  In x (partNumbers (extractEntities message)) ->
  isPartNumber x /\ exists h, occursIn h message /\ toUpperCase h = x.
Proof.
  intros H. apply partNumbers_In in H as (l & h & E & Hh & ->).
  destruct (partPattern_hit _ _ _ E Hh) as (Ho & Hp). eauto.
Qed.

Lemma partNumbers_shape_witness :
  let message := js "Is ps11752778 in stock?" in
  let x := js "PS11752778" in
  In x (partNumbers (extractEntities message)) /\
  isPartNumber x /\ exists h, occursIn h message /\ toUpperCase h = x.
Proof.
  assert (H : In (js "PS11752778")
                (partNumbers (extractEntities (js "Is ps11752778 in stock?"))))
    by (vm_compute; auto).
  split; [exact H|].
  exact (partNumbers_shape (js "Is ps11752778 in stock?") (js "PS11752778") H).
Defined.

(** Every model number reported is a substring of the message that starts
    with an upper-case letter and not with [PS]. *)
Theorem modelNumbers_shape message x :
  In x (modelNumbers (extractEntities message)) ->
  occursIn x message /\ startsWith x (js "PS") = false /\
  exists c t, x = c :: t /\ isUpperAZ c = true.
Proof.
  intros H. apply modelNumbers_In in H as (l & E & Hx & Hf).
  destruct (modelPattern_hit _ _ _ E Hx) as (Ho & Hc). auto.
Qed.

Lemma modelNumbers_shape_witness :
  let message := js "door seal for WDT7801S please" in
  let x := js "WDT7801S" in
  In x (modelNumbers (extractEntities message)) /\
  occursIn x message /\ startsWith x (js "PS") = false /\
  exists c t, x = c :: t /\ isUpperAZ c = true.
Proof.
  assert (H : In (js "WDT7801S")
                (modelNumbers (extractEntities (js "door seal for WDT7801S please"))))
    by (vm_compute; auto).
  split; [exact H|].
  exact (modelNumbers_shape (js "door seal for WDT7801S please")
           (js "WDT7801S") H).
Defined.

(** No string is reported both as a part number and as a model number. *)
Theorem partNumbers_modelNumbers_disjoint message x :
  In x (partNumbers (extractEntities message)) ->
  ~ In x (modelNumbers (extractEntities message)).
Proof.
  intros Hp Hm.
  apply partNumbers_In in Hp as (l & h & E & Hh & ->).
  destruct (partPattern_hit _ _ _ E Hh) as (_ & ds & Hx & _).
  rewrite Hx in Hm.
  apply modelNumbers_In in Hm as (_ & _ & _ & Hf).
  change (js "PS" ++ ds) with (80%N :: 83%N :: ds) in Hf.
  change (js "PS") with [80%N; 83%N] in Hf.
  cbn [startsWith] in Hf. rewrite !N.eqb_refl in Hf.
  destruct ds; discriminate Hf.
Qed.

Lemma partNumbers_modelNumbers_disjoint_witness :
  let message := js "PS11752778 for my WDT7801S" in
  let x := js "PS11752778" in
  In x (partNumbers (extractEntities message)) /\
  ~ In x (modelNumbers (extractEntities message)).
Proof.
  assert (H : In (js "PS11752778")
                (partNumbers (extractEntities (js "PS11752778 for my WDT7801S"))))
    by (vm_compute; auto).
  split; [exact H|].
  exact (partNumbers_modelNumbers_disjoint (js "PS11752778 for my WDT7801S")
           (js "PS11752778") H).
Defined.

End Entities.

(** ** Sanitizer: the cleaned text, HTML encoding, session IDs *)

Section SanitizerMore.
Import Sanitizers.

Variable toLowerCase : jsstring -> jsstring.

(** *** The cleaned text *)

Lemma trim_length s : (List.length (trim s) <= List.length s)%nat.
Proof.
  destruct (trim_infix s) as (x & y & E). rewrite E at 2.
  rewrite !length_app. lia.
Qed.

Lemma collapse_length s : (List.length (collapse s) <= List.length s)%nat.
Proof.
  induction s as [|c s Hc IH|c s Hc IH] using collapse_ind.
  - simpl. lia.
  - rewrite collapse_cons, Hc. simpl.
    pose proof (dropWhile_length isWhiteSpace s). lia.
  - rewrite collapse_cons, Hc. simpl. lia.
Qed.

Lemma clean_length x : (List.length (clean x) <= List.length x)%nat.
Proof.
  unfold clean, normalizeWhitespace, trimWhitespace.
  fold (collapse (trim (removeControlCharacters x))).
  pose proof (trim_length (collapse (trim (removeControlCharacters x)))).
  pose proof (collapse_length (trim (removeControlCharacters x))).
  pose proof (trim_length (removeControlCharacters x)).
  rewrite removeControlCharacters_filter in *.
  pose proof (filter_length_le (fun c => negb (isControl c)) x). lia.
Qed.

(** The cleaned text of every string holds no control character, starts
    and ends with a character that is not white space (or is empty), and
    its only white space is single spaces between other characters. *)
Theorem sanitizeMessage_cleaned_invariant x :
  exists r,
    sanitizeMessage toLowerCase (VString x) = Return r /\
    original r = x /\
    noControl (cleaned r) /\ wsNormal (cleaned r) = true /\
    headOk (cleaned r) = true /\ headOk (rev (cleaned r)) = true.
Proof.
  eexists. split; [reflexivity|]. split; [reflexivity|].
  cbn [cleaned]. apply clean_is_clean.
Qed.

(** Cleaning never lengthens the message. *)
Theorem sanitizeMessage_cleaned_length x :
  exists r,
    sanitizeMessage toLowerCase (VString x) = Return r /\
    (List.length (cleaned r) <= List.length x)%nat.
Proof.
  eexists. split; [reflexivity|]. cbn [cleaned]. apply clean_length.
Qed.

(** *** HTML encoding *)

Lemma encodeHtmlEntities_flat_map s :
  encodeHtmlEntities s = flat_map htmlEntity s.
Proof. unfold encodeHtmlEntities. now rewrite replace_one. Qed.

Lemma oneOf_In l c : oneOf l c = true -> In c l.
Proof.
  unfold oneOf. rewrite existsb_exists. intros (y & Hy & E).
  apply N.eqb_eq in E. now subst.
Qed.

Lemma isHtmlSpecial_In c :
  isHtmlSpecial c = true -> In c [38; 60; 62; 34; 39; 47]%N.
Proof. apply oneOf_In. Qed.

(** The entity of each of the six characters, as code units: [&amp;],
    [&lt;], [&gt;], [&quot;], [&#39;] and [&#x2F;]. *)
Lemma htmlEntity_cases c :
  ((isHtmlSpecial c = false /\ htmlEntity c = [c]) \/
  (c = 38 /\ htmlEntity c = [38; 97; 109; 112; 59]) \/
  (c = 60 /\ htmlEntity c = [38; 108; 116; 59]) \/
  (c = 62 /\ htmlEntity c = [38; 103; 116; 59]) \/
  (c = 34 /\ htmlEntity c = [38; 113; 117; 111; 116; 59]) \/
  (c = 39 /\ htmlEntity c = [38; 35; 51; 57; 59]) \/
  (c = 47 /\ htmlEntity c = [38; 35; 120; 50; 70; 59]))%N.
Proof.
  destruct (isHtmlSpecial c) eqn:E.
  - right. apply isHtmlSpecial_In in E. simpl in E.
    repeat (destruct E as [<-|E];
            [vm_compute; repeat (first [left; split; reflexivity|right]);
             split; reflexivity|]).
    destruct E.
  - left. split; [reflexivity|]. unfold htmlEntity. now rewrite E.
Qed.

Ltac entity_cases c He :=
  let Hs := fresh "Hs" in
  destruct (htmlEntity_cases c)
    as [[Hs He]|[[-> He]|[[-> He]|[[-> He]|[[-> He]|[[-> He]|[-> He]]]]]]].

Lemma isMarkup_special c : isHtmlSpecial c = false -> isMarkup c = false.
Proof.
  intros H. destruct (isMarkup c) eqn:E; [|reflexivity].
  apply oneOf_In in E. simpl in E.
  repeat (destruct E as [<-|E]; [vm_compute in H; discriminate|]).
  destruct E.
Qed.

(** The encoded text holds none of [<], [>], the two quotes and [/]. *)
Theorem encodeHtmlEntities_no_markup s :
  Forall (fun c => isMarkup c = false) (encodeHtmlEntities s).
Proof.
  rewrite encodeHtmlEntities_flat_map.
  induction s as [|c s IH]; [constructor|].
  simpl. apply Forall_app. split; [|assumption].
  entity_cases c He; rewrite He; repeat constructor.
  now apply isMarkup_special.
Qed.

Lemma htmlEntity_length c :
  (isHtmlSpecial c = false /\ List.length (htmlEntity c) = 1%nat) \/
  (isHtmlSpecial c = true /\ (4 <= List.length (htmlEntity c))%nat).
Proof.
  entity_cases c He; rewrite He; simpl;
    first [left; split; [assumption|reflexivity]
          |right; split; [reflexivity|lia]].
Qed.

Lemma encode_length s :
  (List.length s <= List.length (flat_map htmlEntity s))%nat /\
  (List.length (flat_map htmlEntity s) = List.length s ->
   Forall (fun c => isHtmlSpecial c = false) s).
Proof.
  induction s as [|c s [IH1 IH2]]; [split; [simpl; lia|constructor]|].
  simpl. rewrite length_app.
  destruct (htmlEntity_length c) as [[Hs Hl]|[Hs Hl]]; split; try lia.
  intros H. constructor; [assumption|]. apply IH2. lia.
Qed.

Lemma encode_identity s :
  Forall (fun c => isHtmlSpecial c = false) s -> encodeHtmlEntities s = s.
Proof.
  rewrite encodeHtmlEntities_flat_map.
  induction 1 as [|c s Hc _ IH]; [reflexivity|].
  simpl. unfold htmlEntity at 1. rewrite Hc. simpl. now rewrite IH.
Qed.

(** Encoding returns its argument exactly when the argument holds none of
    the six characters; otherwise the result is longer (and encoding an
    encoded text again changes it, [&] being one of the six). *)
Theorem encodeHtmlEntities_identity_iff s :
  encodeHtmlEntities s = s <-> Forall (fun c => isHtmlSpecial c = false) s.
Proof.
  split; [|apply encode_identity].
  rewrite encodeHtmlEntities_flat_map.
  intros H. apply encode_length. now rewrite H.
Qed.

(** Encoding loses nothing: different texts have different encodings. *)
Theorem encodeHtmlEntities_injective s1 s2 :
  encodeHtmlEntities s1 = encodeHtmlEntities s2 -> s1 = s2.
Proof.
  rewrite !encodeHtmlEntities_flat_map. revert s2.
  induction s1 as [|c1 s1 IH]; intros [|c2 s2] H; [reflexivity| | |].
  - exfalso. cbn [flat_map] in H.
    entity_cases c2 He; rewrite He in H; discriminate.
  - exfalso. cbn [flat_map] in H.
    entity_cases c1 He; rewrite He in H; discriminate.
  - cbn [flat_map] in H.
    entity_cases c1 He1; entity_cases c2 He2; rewrite ?He1, ?He2 in H;
      cbn [app] in H;
      try (injection H; intros; subst;
           match goal with
           | Hs : isHtmlSpecial _ = false |- _ => vm_compute in Hs
           end; discriminate);
      try discriminate;
      f_equal; try congruence; apply IH; congruence.
Qed.

Lemma encodeHtmlEntities_injective_witness :
  encodeHtmlEntities (js "a<b") = encodeHtmlEntities (js "a<b") /\
  js "a<b" = js "a<b".
Proof.
  split; [reflexivity|].
  apply (encodeHtmlEntities_injective (js "a<b") (js "a<b")). reflexivity.
Defined.

(** *** Removing special characters *)

Lemma replace_one_delete p s :
  replace_g (one p) (fun _ => []) s = filter (fun c => negb (p c)) s.
Proof.
  rewrite replace_one. induction s as [|c s IH]; [reflexivity|]. simpl.
  destruct (p c); simpl; now rewrite IH.
Qed.

Lemma filter_negb_negb (q : char -> bool) s :
  filter (fun c => negb (negb (q c))) s = filter q s.
Proof. apply filter_ext. intros c. apply negb_involutive. Qed.

Lemma removeSpecialCharacters_filter s :
  removeSpecialCharacters s = filter isKept s.
Proof.
  unfold removeSpecialCharacters. rewrite replace_one_delete.
  apply filter_negb_negb.
Qed.

Lemma isKept_not_special c : isKept c = true -> isHtmlSpecial c = false.
Proof.
  intros H. destruct (isHtmlSpecial c) eqn:E; [|reflexivity].
  apply isHtmlSpecial_In in E. simpl in E.
  repeat (destruct E as [<-|E]; [vm_compute in H; discriminate|]).
  destruct E.
Qed.

Lemma filter_idempotent (q : char -> bool) s : filter q (filter q s) = filter q s.
Proof.
  induction s as [|c s IH]; [reflexivity|]. simpl.
  destruct (q c) eqn:E; simpl; [rewrite E|]; now rewrite IH.
Qed.

(** [removeSpecialCharacters] leaves only the characters it keeps, a
    second pass changes nothing, and its result needs no HTML encoding. *)
Theorem removeSpecialCharacters_safe s :
  Forall (fun c => isKept c = true) (removeSpecialCharacters s) /\
  removeSpecialCharacters (removeSpecialCharacters s) = removeSpecialCharacters s /\
  encodeHtmlEntities (removeSpecialCharacters s) = removeSpecialCharacters s.
Proof.
  rewrite !removeSpecialCharacters_filter.
  assert (H : Forall (fun c => isKept c = true) (filter isKept s)).
  { apply Forall_forall. intros c Hc. now apply filter_In in Hc. }
  split; [assumption|]. split; [apply filter_idempotent|].
  apply encode_identity.
  eapply Forall_impl; [|exact H]. apply isKept_not_special.
Qed.

End SanitizerMore.

(** ** Session IDs *)

Section SessionIds.
Import Sanitizers.

Lemma sanitizeSessionId_eq c s :
  sanitizeSessionId (c :: s) =
  match firstn 50 (filter isSessionIdChar (c :: s)) with
  | [] => None
  | a :: r => Some (a :: r)
  end.
Proof.
  unfold sanitizeSessionId, substring0. cbv zeta.
  rewrite replace_one_delete, filter_negb_negb. reflexivity.
Qed.

Lemma Forall_firstn_char (P : char -> Prop) n l : Forall P l -> Forall P (firstn n l).
Proof.
  intros H. rewrite <- (firstn_skipn n l) in H.
  now apply Forall_app in H as [H _].
Qed.

Lemma forallb_Forall (q : char -> bool) l :
  forallb q l = true -> Forall (fun c => q c = true) l.
Proof.
  intros H. apply Forall_forall. now apply (proj1 (forallb_forall q l)).
Defined.

Lemma filter_all (q : char -> bool) s :
  Forall (fun c => q c = true) s -> filter q s = s.
Proof.
  induction 1 as [|c s Hc _ IH]; [reflexivity|]. simpl. now rewrite Hc, IH.
Qed.

Lemma sanitizeSessionId_valid s :
  s <> [] -> (List.length s <= 50)%nat ->
  Forall (fun c => isSessionIdChar c = true) s ->
  sanitizeSessionId s = Some s.
Proof.
  intros Hn Hl Hc. destruct s as [|c s]; [congruence|].
  rewrite sanitizeSessionId_eq, (filter_all _ _ Hc), firstn_all2 by assumption.
  reflexivity.
Qed.

Lemma sanitizeSessionId_shape s r :
  sanitizeSessionId s = Some r ->
  r <> [] /\ (List.length r <= 50)%nat /\
  Forall (fun c => isSessionIdChar c = true) r.
Proof.
  destruct s as [|c s]; [discriminate|].
  rewrite sanitizeSessionId_eq.
  destruct (firstn 50 (filter isSessionIdChar (c :: s))) as [|a t] eqn:E;
    [discriminate|].
  intros [= <-]. split; [discriminate|]. rewrite <- E. split.
  - apply firstn_le_length.
  - apply Forall_firstn_char, Forall_forall.
    intros x Hx. now apply filter_In in Hx.
Qed.

(** A sanitized session ID is never empty, has at most 50 characters, all
    of them letters, digits, [-] or [_], and sanitizing it again returns
    it unchanged. *)
Theorem sanitizeSessionId_result s r :
  sanitizeSessionId s = Some r ->
  r <> [] /\ (List.length r <= 50)%nat /\
  Forall (fun c => isSessionIdChar c = true) r /\
  sanitizeSessionId r = Some r.
Proof.
  intros H. destruct (sanitizeSessionId_shape _ _ H) as (Hn & Hl & Hc).
  repeat split; auto. now apply sanitizeSessionId_valid.
Qed.

Lemma sanitizeSessionId_result_witness :
  let s := js "../etc/<script> abc_123" in
  let r := js "etcscriptabc_123" in
  sanitizeSessionId s = Some r /\
  r <> [] /\ (List.length r <= 50)%nat /\
  Forall (fun c => isSessionIdChar c = true) r /\
  sanitizeSessionId r = Some r.
Proof.
  assert (H : sanitizeSessionId (js "../etc/<script> abc_123")
              = Some (js "etcscriptabc_123")) by (vm_compute; reflexivity).
  split; [exact H|].
  exact (sanitizeSessionId_result (js "../etc/<script> abc_123")
           (js "etcscriptabc_123") H).
Defined.

(** A non-empty ID of at most 50 letters, digits, [-] and [_] (a UUID, for
    instance) is returned as it is. *)
Theorem sanitizeSessionId_keeps_valid s :
  s <> [] -> (List.length s <= 50)%nat ->
  Forall (fun c => isSessionIdChar c = true) s ->
  sanitizeSessionId s = Some s.
Proof. apply sanitizeSessionId_valid. Qed.

Lemma sanitizeSessionId_keeps_valid_witness :
  let s := js "3f2504e0-4f89-41d3-9a0c-0305e82c3301" in
  s <> [] /\ (List.length s <= 50)%nat /\ sanitizeSessionId s = Some s.
Proof.
  split; [discriminate|]. split; [vm_compute; repeat constructor|].
  apply (sanitizeSessionId_keeps_valid (js "3f2504e0-4f89-41d3-9a0c-0305e82c3301")).
  - discriminate.
  - vm_compute; repeat constructor.
  - apply forallb_Forall. reflexivity.
Defined.

(** The result is [null] exactly when the ID holds no letter, digit, [-]
    or [_] at all. *)
Theorem sanitizeSessionId_null_iff s :
  sanitizeSessionId s = None <-> Forall (fun c => isSessionIdChar c = false) s.
Proof.
  destruct s as [|c s]; [split; [constructor|reflexivity]|].
  rewrite sanitizeSessionId_eq.
  set (l := c :: s). clearbody l. split.
  - intros H. induction l as [|a l IH]; [constructor|].
    simpl in H. destruct (isSessionIdChar a) eqn:E; [discriminate|].
    constructor; auto.
  - intros H. induction H as [|a l Ha _ IH]; [reflexivity|].
    simpl. now rewrite Ha.
Qed.

End SessionIds.

(** ** Validation and preprocessing *)

Section Preprocessing.
Import Sanitizers Validators.

Variable toLowerCase : jsstring -> jsstring.

Lemma test_one p s : test (one p) s = existsb p s.
Proof.
  induction s as [|c s IH]; [reflexivity|].
  cbn [test existsb]. rewrite exec_one. destruct (p c); [reflexivity|exact IH].
Qed.

Lemma existsb_false_Forall (p : char -> bool) s :
  existsb p s = false -> Forall (fun c => p c = false) s.
Proof.
  induction s as [|c s IH]; [constructor|]. simpl.
  intros H. apply orb_false_iff in H as [Hc Hs]. constructor; auto.
Qed.

(** The validator's class lacks U+007F, which the sanitizer removes. *)
Lemma isControl_split c :
  isControl c =
  (inRange 0 8 c || inRange 11 12 c || inRange 14 31 c) || (c =? 127)%N.
Proof. reflexivity. Qed.

Lemma removeControlCharacters_validated message :
  isMessageSafeFromControlCharacters message = true ->
  removeControlCharacters message = filter (fun c => negb (c =? 127)%N) message.
Proof.
  unfold isMessageSafeFromControlCharacters, controlCharPattern.
  rewrite test_one, negb_true_iff. intros H.
  apply existsb_false_Forall in H. rewrite Forall_forall in H.
  rewrite removeControlCharacters_filter. apply filter_ext_in.
  intros c Hc. cbv beta. rewrite isControl_split, (H c Hc). reflexivity.
Qed.

(** On a message that passes the control-character check, the sanitizer's
    first step removes the DEL characters (U+007F) and nothing else. *)
Theorem removeControlCharacters_after_validation message :
  isMessageSafeFromControlCharacters message = true ->
  removeControlCharacters message = filter (fun c => negb (c =? 127)%N) message.
Proof. apply removeControlCharacters_validated. Qed.

Lemma removeControlCharacters_after_validation_witness :
  let message := [104; 105; 127; 33]%N in
  isMessageSafeFromControlCharacters message = true /\
  removeControlCharacters message = filter (fun c => negb (c =? 127)%N) message.
Proof.
  split; [reflexivity|].
  apply (removeControlCharacters_after_validation [104; 105; 127; 33]%N).
  reflexivity.
Defined.

Lemma dropWhile_last (p : char -> bool) l c :
  p c = false -> dropWhile p (l ++ [c]) <> [].
Proof.
  intros Hc. induction l as [|a l IH]; simpl.
  - rewrite Hc. discriminate.
  - destruct (p a); [exact IH|discriminate].
Qed.

Lemma trim_cons_nonempty c s : isWhiteSpace c = false -> trim (c :: s) <> [].
Proof.
  intros Hc. unfold trim. simpl dropWhile at 2. rewrite Hc.
  simpl rev at 2. intros H.
  apply (f_equal (@rev char)) in H. rewrite rev_involutive in H. simpl in H.
  revert H. now apply dropWhile_last.
Qed.

(** What preprocessing guarantees about the cleaned text. *)
Lemma clean_validated message :
  isMessageLengthValid message = true ->
  isMessageSafeFromControlCharacters message = true ->
  Forall (fun c => c <> 127%N) message ->
  (1 <= List.length (clean message) <= 5000)%nat.
Proof.
  intros Hlen Hsafe Hdel.
  unfold isMessageLengthValid in Hlen. cbv zeta in Hlen.
  apply andb_true_iff in Hlen as [Hmin Hmax].
  apply Nat.leb_le in Hmin, Hmax.
  unfold CONSTANTS.MESSAGE.MIN_LENGTH in Hmin.
  unfold CONSTANTS.MESSAGE.MAX_LENGTH in Hmax.
  assert (Hr : removeControlCharacters message = message).
  { rewrite (removeControlCharacters_validated _ Hsafe).
    apply filter_all. eapply Forall_impl; [|exact Hdel].
    intros c Hc. cbv beta. now apply negb_true_iff, N.eqb_neq. }
  unfold clean, normalizeWhitespace, trimWhitespace. rewrite Hr.
  fold (collapse (trim message)).
  pose proof (trim_length (collapse (trim message))).
  pose proof (collapse_length (trim message)).
  split; [|lia].
  destruct (trim_headOk message) as [Hh _].
  destruct (trim message) as [|c t]; [simpl in Hmin; lia|].
  simpl in Hh. apply negb_true_iff in Hh.
  rewrite collapse_cons, Hh.
  pose proof (trim_cons_nonempty c (collapse t) Hh) as Hne.
  destruct (trim (c :: collapse t)); [congruence|simpl; lia].
Qed.

(** When preprocessing succeeds on a message without DEL characters, the
    cleaned text still has between 1 and 5000 characters. *)
Theorem preprocessMessage_cleaned_length message r :
  MessageService.preprocessMessage toLowerCase message = Return r ->
  Forall (fun c => c <> 127%N) message ->
  (1 <= List.length (MessageService.cleaned r) <= 5000)%nat.
Proof.
  unfold MessageService.preprocessMessage.
  destruct (isMessageLengthValid message) eqn:Hlen; [|discriminate].
  destruct (isMessageSafeFromControlCharacters message) eqn:Hsafe; [|discriminate].
  cbn [negb sanitizeMessage]. cbv zeta. intros [= <-] Hdel.
  cbn [MessageService.cleaned cleaned].
  now apply clean_validated.
Qed.

End Preprocessing.

(** The DEL character passes the validators and is then removed: a message
    made of it alone is accepted and cleaned to the empty text. *)
Example preprocessMessage_DEL_only :
  exists r,
    MessageService.preprocessMessage (map lowerCode) [127%N] = Return r /\
    MessageService.cleaned r = [].
Proof. eexists. split; reflexivity. Qed.

Lemma preprocessMessage_cleaned_length_witness :
  let message := js "  How do I   install PS11752778?  " in
  exists r,
    MessageService.preprocessMessage (map lowerCode) message = Return r /\
    Forall (fun c => c <> 127%N) message /\
    (1 <= List.length (MessageService.cleaned r) <= 5000)%nat.
Proof.
  eexists. split; [reflexivity|].
  assert (Hd : Forall (fun c => c <> 127%N)
                 (js "  How do I   install PS11752778?  ")).
  { eapply Forall_impl;
      [|apply (forallb_Forall (fun c => negb (c =? 127)%N)); reflexivity].
    intros c Hc. now apply negb_true_iff, N.eqb_neq in Hc. }
  split; [exact Hd|].
  exact (preprocessMessage_cleaned_length (map lowerCode)
           (js "  How do I   install PS11752778?  ") _ eq_refl Hd).
Defined.

(** ** Scope detector: tokens, scores and the decision *)

Section ScopeMore.
Import CONSTANTS ScopeDetection.
Local Open Scope Z_scope.

Variable toLowerCase : jsstring -> jsstring.

(** *** Tokens *)

Lemma split_loop_skip r n cur s :
  (n <= List.length s)%nat ->
  split_loop r n cur s = split_loop r 0 cur (skipn n s).
Proof.
  revert s; induction n as [|n IH]; intros s H; [reflexivity|].
  destruct s as [|c s]; [simpl in H; lia|].
  simpl in H. cbn [split_loop skipn]. apply IH. lia.
Qed.

Lemma split_loop_nonempty r s : forall n cur, split_loop r n cur s <> [].
Proof.
  induction s as [|c s IH]; intros n cur; cbn [split_loop]; [discriminate|].
  destruct n; [|apply IH].
  destruct (exec r (c :: s)); [|apply IH].
  destruct (List.length (c :: s) - List.length j)%nat; [|discriminate].
  destruct cur; [apply IH|discriminate].
Qed.

Lemma join_cons sep x l : l <> [] -> join sep (x :: l) = x ++ sep ++ join sep l.
Proof. destruct l; [congruence|reflexivity]. Qed.

Lemma split_loop_join s : forall cur,
  join (js " ") (split_loop (Chars isWhiteSpace 1 None) 0 cur s)
  = rev cur ++ collapse s.
Proof.
  induction s as [|c s Hc IH|c s Hc IH] using collapse_ind; intros cur.
  - simpl. now rewrite app_nil_r.
  - cbn [split_loop]. rewrite exec_plus, Hc, collapse_cons, Hc.
    pose proof (dropWhile_length isWhiteSpace s).
    replace (List.length (c :: s) - List.length (dropWhile isWhiteSpace s))%nat
      with (S (List.length s - List.length (dropWhile isWhiteSpace s)))
      by (cbn [List.length]; lia).
    rewrite join_cons by apply split_loop_nonempty.
    rewrite split_loop_skip by lia. rewrite dropWhile_skipn, IH. reflexivity.
  - cbn [split_loop]. rewrite exec_plus, Hc, collapse_cons, Hc, IH.
    simpl rev. now rewrite <- app_assoc.
Qed.

Lemma tokens_join message : join (js " ") (tokensOf message) = collapse message.
Proof.
  unfold tokensOf, split. destruct message as [|c s]; [reflexivity|].
  apply (split_loop_join (c :: s) []).
Qed.

(** The tokens of a message, joined again by single spaces as
    [categorizeInScopeMessage] does, give the message with every run of
    white space replaced by one space; for the cleaned text of the
    sanitizer they give the text itself back. *)
Theorem tokens_join_roundtrip x :
  join (js " ") (tokensOf x)
  = replace_g (Chars isWhiteSpace 1 None) (fun _ => js " ") x /\
  exists r,
    Sanitizers.sanitizeMessage toLowerCase (VString x) = Return r /\
    join (js " ") (tokensOf (Sanitizers.cleaned r)) = Sanitizers.cleaned r.
Proof.
  split; [apply tokens_join|].
  eexists. split; [reflexivity|]. cbn [Sanitizers.cleaned].
  rewrite tokens_join. apply collapse_fix.
  apply (clean_is_clean x).
Qed.

(** *** Keyword scores *)

Lemma startsWith_refl s : startsWith s s = true.
Proof. induction s as [|c s IH]; [reflexivity|]. simpl. now rewrite N.eqb_refl. Qed.

Lemma includes_refl s : includes s s = true.
Proof. destruct s; cbn [includes]; now rewrite startsWith_refl. Qed.

Lemma exactIn_partialIn keywords token :
  exactIn keywords token = true -> partialIn keywords token = true.
Proof.
  unfold exactIn, partialIn. rewrite Array_includes_In. intros H.
  apply existsb_exists. exists token. split; [assumption|].
  now rewrite includes_refl.
Qed.

Lemma filter_length_mono (f g : jsstring -> bool) l :
  (forall x, f x = true -> g x = true) ->
  (List.length (filter f l) <= List.length (filter g l))%nat.
Proof.
  intros H. induction l as [|x l IH]; [simpl; lia|]. simpl.
  destruct (f x) eqn:E.
  - rewrite (H x E). simpl. lia.
  - destruct (g x); simpl; lia.
Qed.

Lemma score_fold (A B : jsstring -> bool) w1 w2 tokens : forall score,
  fold_left
    (fun score token =>
       let score := if A token then score + w1 else score in
       if B token then score + w2 else score)
    tokens score
  = score + w1 * countIf A tokens + w2 * countIf B tokens.
Proof.
  unfold countIf. induction tokens as [|t ts IH]; intros score; simpl.
  - lia.
  - rewrite IH. destruct (A t), (B t); cbn [List.length]; lia.
Qed.

Lemma inScopeScore_eq tokens :
  calculateInScopeScore tokens
  = Z.min (10 * countIf (exactIn IN_SCOPE_KEYWORDS) tokens
           + 3 * countIf (partialIn IN_SCOPE_KEYWORDS) tokens) 100.
Proof.
  unfold calculateInScopeScore. cbv zeta.
  rewrite (score_fold (exactIn IN_SCOPE_KEYWORDS) (partialIn IN_SCOPE_KEYWORDS)).
  f_equal.
Qed.

Lemma outOfScopeScore_eq tokens :
  calculateOutOfScopeScore tokens
  = Z.min (15 * countIf (exactIn OUT_OF_SCOPE_KEYWORDS) tokens
           + 5 * countIf (partialIn OUT_OF_SCOPE_KEYWORDS) tokens) 100.
Proof.
  unfold calculateOutOfScopeScore. cbv zeta.
  rewrite (score_fold (exactIn OUT_OF_SCOPE_KEYWORDS)
             (partialIn OUT_OF_SCOPE_KEYWORDS)).
  f_equal.
Qed.

Lemma countIf_nonneg f l : 0 <= countIf f l.
Proof. unfold countIf. lia. Qed.

Lemma countIf_exact_partial keywords tokens :
  countIf (exactIn keywords) tokens <= countIf (partialIn keywords) tokens.
Proof.
  unfold countIf. apply Nat2Z.inj_le, filter_length_mono.
  apply exactIn_partialIn.
Qed.

Lemma score_bounds tokens :
  0 <= calculateInScopeScore tokens <= 100 /\
  0 <= calculateOutOfScopeScore tokens <= 100.
Proof.
  rewrite inScopeScore_eq, outOfScopeScore_eq.
  pose proof (countIf_nonneg (exactIn IN_SCOPE_KEYWORDS) tokens).
  pose proof (countIf_nonneg (partialIn IN_SCOPE_KEYWORDS) tokens).
  pose proof (countIf_nonneg (exactIn OUT_OF_SCOPE_KEYWORDS) tokens).
  pose proof (countIf_nonneg (partialIn OUT_OF_SCOPE_KEYWORDS) tokens).
  lia.
Qed.

(** Both keyword scores count tokens: 10 (15 out of scope) for every token
    that is a keyword and 3 (5) for every token that occurs in a keyword or
    holds one, capped at 100.  A token that is a keyword is counted in
    both numbers, so it is worth 13 (20). *)
Theorem keyword_scores tokens :
  calculateInScopeScore tokens
  = Z.min (10 * countIf (exactIn IN_SCOPE_KEYWORDS) tokens
           + 3 * countIf (partialIn IN_SCOPE_KEYWORDS) tokens) 100 /\
  calculateOutOfScopeScore tokens
  = Z.min (15 * countIf (exactIn OUT_OF_SCOPE_KEYWORDS) tokens
           + 5 * countIf (partialIn OUT_OF_SCOPE_KEYWORDS) tokens) 100 /\
  countIf (exactIn IN_SCOPE_KEYWORDS) tokens
    <= countIf (partialIn IN_SCOPE_KEYWORDS) tokens /\
  countIf (exactIn OUT_OF_SCOPE_KEYWORDS) tokens
    <= countIf (partialIn OUT_OF_SCOPE_KEYWORDS) tokens.
Proof.
  split; [apply inScopeScore_eq|]. split; [apply outOfScopeScore_eq|].
  split; apply countIf_exact_partial.
Qed.

(** *** Keywords of a message *)

Lemma extractKeywords_fold tokens : forall a b,
  fold_left
    (fun '(inScopeKeywords, outOfScopeKeywords) token =>
       let inScopeKeywords :=
         if Array_includes IN_SCOPE_KEYWORDS token
         then inScopeKeywords ++ [token] else inScopeKeywords in
       let outOfScopeKeywords :=
         if Array_includes OUT_OF_SCOPE_KEYWORDS token
         then outOfScopeKeywords ++ [token] else outOfScopeKeywords in
       (inScopeKeywords, outOfScopeKeywords))
    tokens (a, b)
  = (a ++ filter (exactIn IN_SCOPE_KEYWORDS) tokens,
     b ++ filter (exactIn OUT_OF_SCOPE_KEYWORDS) tokens).
Proof.
  unfold exactIn. induction tokens as [|t ts IH]; intros a b; cbn [fold_left filter].
  - now rewrite !app_nil_r.
  - cbv zeta. rewrite IH.
    destruct (Array_includes IN_SCOPE_KEYWORDS t),
             (Array_includes OUT_OF_SCOPE_KEYWORDS t);
      rewrite <- ?app_assoc; reflexivity.
Qed.

Lemma keyword_tables_disjoint token :
  exactIn IN_SCOPE_KEYWORDS token = true ->
  exactIn OUT_OF_SCOPE_KEYWORDS token = false.
Proof.
  unfold exactIn. rewrite Array_includes_In. intros H.
  assert (Hall : forallb (fun k => negb (Array_includes OUT_OF_SCOPE_KEYWORDS k))
                   IN_SCOPE_KEYWORDS = true) by (vm_compute; reflexivity).
  rewrite forallb_forall in Hall. now apply negb_true_iff, Hall.
Qed.

(** [extractKeywords] returns the tokens that are in-scope keywords and
    those that are out-of-scope keywords, in order of occurrence and with
    repetitions; no token is in both lists. *)
Theorem extractKeywords_spec tokens :
  MessageService.extractKeywords tokens
  = (filter (exactIn IN_SCOPE_KEYWORDS) tokens,
     filter (exactIn OUT_OF_SCOPE_KEYWORDS) tokens) /\
  forall token,
    ~ (In token (fst (MessageService.extractKeywords tokens)) /\
       In token (snd (MessageService.extractKeywords tokens))).
Proof.
  assert (E : MessageService.extractKeywords tokens
              = (filter (exactIn IN_SCOPE_KEYWORDS) tokens,
                 filter (exactIn OUT_OF_SCOPE_KEYWORDS) tokens)).
  { unfold MessageService.extractKeywords. now rewrite extractKeywords_fold. }
  split; [exact E|]. rewrite E. cbn [fst snd]. intros token [Hi Ho].
  apply filter_In in Hi as [_ Hi]. apply filter_In in Ho as [_ Ho].
  rewrite (keyword_tables_disjoint _ Hi) in Ho. discriminate.
Qed.

(** *** The decision *)

Lemma detectPatterns_none message :
  hasPattern message = false ->
  detectPatterns message = 0 \/ detectPatterns message = 20.
Proof.
  unfold hasPattern, detectPatterns. intros H.
  apply orb_false_iff in H as [Hp Hm]. cbv zeta. rewrite Hp, Hm.
  match goal with
  | |- context [if ?b then _ else _] => destruct b
  end; [right|left]; reflexivity.
Qed.

(** A message is rejected exactly when it shows no part or model number
    and its out-of-scope score exceeds its in-scope score by more than 20;
    the category is then [out_of_scope]. *)
Theorem detectScope_rejects_iff message :
  (inScope (detectScope message) = false <->
   hasPattern message = false /\
   calculateOutOfScopeScore (tokensOf message)
     > calculateInScopeScore (tokensOf message) + 20) /\
  (inScope (detectScope message) = false <->
   category (detectScope message) = "out_of_scope"%string).
Proof.
  destruct (hasPattern message) eqn:Hp.
  - rewrite (detectScope_override _ Hp). simpl.
    split; split; try discriminate. intros [H _]. discriminate.
  - rewrite (detectScope_keywords _ Hp). cbv zeta.
    destruct (Z.gtb_spec (calculateOutOfScopeScore (tokensOf message))
                (calculateInScopeScore (tokensOf message) + 20)) as [Ho|Ho].
    + simpl. split; split; auto. intros _. split; [reflexivity|lia].
    + assert (Hc : categorizeInScopeMessage (tokensOf message)
                   <> "out_of_scope"%string).
      { unfold categorizeInScopeMessage.
        repeat match goal with
               | |- context [if ?b then _ else _] => destruct b
               end; discriminate. }
      destruct (_ >? _); simpl; split; split;
        try discriminate; try congruence; intros [_ H]; lia.
Qed.

(** The scores reported are between 0 and 100; the pattern score is 100
    under the pattern override and otherwise 0 or 20 (an appliance word). *)
Theorem detectScope_score_ranges message :
  let sc := score (detectScope message) in
  0 <= score_inScope sc <= 100 /\ 0 <= score_outOfScope sc <= 100 /\
  (if hasPattern message then score_patterns sc = 100
   else score_patterns sc = 0 \/ score_patterns sc = 20).
Proof.
  cbv zeta. destruct (hasPattern message) eqn:Hp.
  - rewrite (detectScope_override _ Hp). simpl. lia.
  - rewrite (detectScope_keywords _ Hp). cbv zeta.
    pose proof (score_bounds (tokensOf message)) as [Hi Ho].
    pose proof (detectPatterns_none _ Hp) as Hd.
    destruct (_ >? _); [|destruct (_ >? _)]; cbn [score score_inScope
      score_outOfScope score_patterns]; auto.
Qed.

Lemma confidenceOf_bounds a s :
  a <= s -> a <= 95 ->
  (inject_Z a / inject_Z 100 <= confidenceOf s)%Q /\
  (confidenceOf s <= 95 # 100)%Q.
Proof.
  intros Has Ha. unfold confidenceOf. split.
  - apply Q.min_glb; unfold Qle; simpl; lia.
  - apply Q.le_min_l.
Qed.

(** The confidence of a scope decision lies between 0.11 and 1; for a
    rejected message it lies between 0.21 and 0.95. *)
Theorem detectScope_confidence_range message :
  (11 # 100 <= confidence (detectScope message) <= 1)%Q /\
  (if inScope (detectScope message) then True
   else (21 # 100 <= confidence (detectScope message) <= 95 # 100)%Q).
Proof.
  destruct (hasPattern message) eqn:Hp.
  - rewrite (detectScope_override _ Hp). simpl.
    repeat split; unfold Qle; simpl; lia.
  - rewrite (detectScope_keywords _ Hp). cbv zeta.
    pose proof (score_bounds (tokensOf message)) as [Hi Ho].
    destruct (Z.gtb_spec (calculateOutOfScopeScore (tokensOf message))
                (calculateInScopeScore (tokensOf message) + 20)) as [H1|H1];
      [|destruct (Z.gtb_spec (calculateInScopeScore (tokensOf message))
                   (calculateOutOfScopeScore (tokensOf message) + 10))
          as [H2|H2]];
      cbn [inScope confidence].
    + destruct (confidenceOf_bounds 21 (calculateOutOfScopeScore (tokensOf message)))
        as [Hl Hu]; [lia|lia|].
      repeat split; auto.
      * eapply Qle_trans; [|exact Hl]. unfold Qle; simpl; lia.
      * eapply Qle_trans; [exact Hu|]. unfold Qle; simpl; lia.
    + destruct (confidenceOf_bounds 11 (calculateInScopeScore (tokensOf message)))
        as [Hl Hu]; [lia|lia|].
      repeat split; auto.
      eapply Qle_trans; [exact Hu|]. unfold Qle; simpl; lia.
    + repeat split; unfold Qle; simpl; lia.
Qed.

End ScopeMore.

(** ** Intent classifier: scores, the result and its keywords *)

Section IntentMore.
Import CONSTANTS IntentClassification.
Local Open Scope Z_scope.

(** *** Scores *)

(** Of the matches of one token, [a] are exact and [b] partial. *)
Lemma points_matched token keywords :
  exists a b,
    0 <= a /\ 0 <= b /\
    sumZ (map (points token) keywords) = 15 * a + 5 * b /\
    Z.of_nat (List.length (filter (matched token) keywords)) = a + b.
Proof.
  induction keywords as [|kw kws (a & b & Ha & Hb & E & Hn)];
    [exists 0, 0; simpl; lia|].
  cbn [map filter sumZ fold_right]. fold (sumZ (map (points token) kws)).
  unfold points at 1, matched at 1.
  destruct (exactMatch token kw); [|destruct (partialMatch token kw)];
    cbn [orb List.length].
  - exists (a + 1), b. lia.
  - exists a, (b + 1). lia.
  - exists a, b. lia.
Qed.

Lemma totalPoints_matches tokens keywords :
  exists a b,
    0 <= a /\ 0 <= b /\
    totalPoints tokens keywords = 15 * a + 5 * b /\
    Z.of_nat (List.length (matchesOf tokens keywords)) = a + b.
Proof.
  unfold totalPoints, matchesOf.
  induction tokens as [|t ts (a & b & Ha & Hb & E & Hn)];
    [exists 0, 0; simpl; lia|].
  cbn [flat_map]. rewrite sumZ_app, length_app, E.
  destruct (points_matched t keywords) as (a' & b' & Ha' & Hb' & -> & Hn').
  exists (a' + a), (b' + b). lia.
Qed.

Lemma scoreIntent_value tokens keywords :
  exists a b,
    0 <= a /\ 0 <= b /\
    Z.of_nat (List.length (matchesOf tokens keywords)) = a + b /\
    scoreIntent tokens keywords
    = Z.min (15 * a + 5 * b + (if 1 <? a + b then 5 * (a + b) else 0)) 100.
Proof.
  destruct (totalPoints_matches tokens keywords) as (a & b & Ha & Hb & E & Hn).
  exists a, b. repeat (split; [assumption|]).
  unfold scoreIntent. rewrite scoreIntent_fold. simpl app.
  rewrite Z.add_0_l, E, <- Hn.
  destruct (Nat.ltb_spec 1 (List.length (matchesOf tokens keywords)));
    destruct (Z.ltb_spec 1 (Z.of_nat (List.length (matchesOf tokens keywords))));
    try lia; f_equal; lia.
Qed.

Lemma scoreIntent_range tokens keywords : 0 <= scoreIntent tokens keywords <= 100.
Proof.
  destruct (scoreIntent_value tokens keywords) as (a & b & Ha & Hb & _ & ->).
  destruct (1 <? a + b); lia.
Qed.

(** An intent score is a multiple of 5 between 0 and 100; it is 0 exactly
    when no token matches any trigger phrase, 5 or 15 for a single match,
    and at least 20 as soon as two matches are recorded. *)
Theorem scoreIntent_values tokens keywords :
  let n := List.length (matchesOf tokens keywords) in
  (exists k, scoreIntent tokens keywords = 5 * k /\ 0 <= k <= 20) /\
  (scoreIntent tokens keywords = 0 <-> n = 0%nat) /\
  (n = 1%nat -> scoreIntent tokens keywords = 5 \/ scoreIntent tokens keywords = 15) /\
  ((2 <= n)%nat -> 20 <= scoreIntent tokens keywords).
Proof.
  cbv zeta.
  destruct (scoreIntent_value tokens keywords) as (a & b & Ha & Hb & Hn & ->).
  destruct (Z.ltb_spec 1 (a + b)) as [H1|H1].
  - split; [|split; [|split]]; try lia.
    exists (Z.min (3 * a + b + (a + b)) 20). lia.
  - split; [|split; [|split]]; try lia.
    exists (Z.min (3 * a + b) 20). lia.
Qed.

Lemma scoreIntent_values_witness :
  let tokens := tokensOf (js "please fix it") in
  let keywords := keywordsOf "troubleshooting" in
  List.length (matchesOf tokens keywords) = 1%nat /\
  (scoreIntent tokens keywords = 5 \/ scoreIntent tokens keywords = 15).
Proof.
  assert (H : List.length (matchesOf (tokensOf (js "please fix it"))
                             (keywordsOf "troubleshooting")) = 1%nat)
    by (vm_compute; reflexivity).
  split; [exact H|].
  exact (proj1 (proj2 (proj2 (scoreIntent_values (tokensOf (js "please fix it"))
                                (keywordsOf "troubleshooting")))) H).
Defined.

(** *** The result *)

Lemma fold_higher_In l x : In (fold_left higher l x) (x :: l).
Proof.
  destruct (@fold_higher_last l [] x [] (Forall_nil _) (Forall_nil _))
    as (b & a & E & _).
  simpl app in E. rewrite E. apply in_elt.
Qed.

(** Every message is given one of the five scored intents, never
    [general_inquiry], with its context; the confidence is the winning
    score over 100, capped at 0.99. *)
Theorem classifyIntent_result message :
  let r := classifyIntent message in
  In (intent r) ["product_search"; "compatibility_check"; "installation_guide";
                 "troubleshooting"; "order_support"]%string /\
  intent r <> "general_inquiry"%string /\
  context r <> None /\
  exists w,
    In (intent r, w) (scores r) /\ 0 <= w <= 100 /\
    confidence r = Qmin (inject_Z w / inject_Z 100) (99 # 100) /\
    (0 <= confidence r <= 99 # 100)%Q.
Proof.
  unfold classifyIntent; cbv zeta. cbn [reduce intent context scores confidence].
  match goal with
  | |- context [fold_left higher ?l ?x] =>
      pose proof (fold_higher_In l x) as Hin;
      set (top := fold_left higher l x) in *
  end.
  assert (Hkey : In (fst top)
                   ["product_search"; "compatibility_check"; "installation_guide";
                    "troubleshooting"; "order_support"]%string).
  { apply (in_map fst) in Hin. exact Hin. }
  assert (Hw : 0 <= snd top <= 100).
  { cbn [In] in Hin.
    repeat (destruct Hin as [<-|Hin]; [apply scoreIntent_range|]).
    destruct Hin. }
  split; [exact Hkey|]. split.
  - intros E. rewrite E in Hkey. cbn [In] in Hkey.
    repeat (destruct Hkey as [Hkey|Hkey]; [discriminate|]). exact Hkey.
  - split; [discriminate|]. exists (snd top).
    rewrite <- surjective_pairing. split; [exact Hin|]. split; [exact Hw|].
    split; [reflexivity|]. split.
    + apply Q.min_glb; unfold Qle; simpl; lia.
    + apply Q.le_min_r.
Qed.

(** When the five scores are equal (no trigger phrase matched, for
    instance), the intent is [order_support], the last one scored. *)
Theorem classifyIntent_all_equal message v :
  Forall (fun e => snd e = v) (scores (classifyIntent message)) ->
  intent (classifyIntent message) = "order_support"%string /\
  confidence (classifyIntent message) = Qmin (inject_Z v / inject_Z 100) (99 # 100).
Proof.
  unfold classifyIntent; cbv zeta. cbn [reduce intent scores confidence].
  intros H.
  repeat match goal with
         | H : Forall _ (_ :: _) |- _ => inversion H; subst; clear H
         end.
  cbn [snd] in *.
  cbn [fold_left]. unfold higher. cbn [snd fst].
  repeat match goal with
         | H : scoreIntent _ _ = scoreIntent _ _ |- _ => rewrite H in *; clear H
         end.
  rewrite !Z.gtb_ltb, !Z.ltb_irrefl. cbn [fst snd]. split; reflexivity.
Qed.

Lemma classifyIntent_all_equal_witness :
  let message := js "hello there" in
  Forall (fun e => snd e = 0) (scores (classifyIntent message)) /\
  intent (classifyIntent message) = "order_support"%string /\
  confidence (classifyIntent message) = Qmin (inject_Z 0 / inject_Z 100) (99 # 100).
Proof.
  assert (H : Forall (fun e => snd e = 0)
                (scores (classifyIntent (js "hello there"))))
    by (vm_compute; repeat constructor).
  split; [exact H|].
  exact (classifyIntent_all_equal (js "hello there") 0 H).
Defined.

(** *** Matched keywords *)

Lemma addIfNew_fold f keywords : forall acc,
  NoDup acc ->
  NoDup (fold_left (addIfNew f) keywords acc) /\
  forall k, In k (fold_left (addIfNew f) keywords acc)
            <-> In k acc \/ (In k keywords /\ f k = true).
Proof.
  induction keywords as [|kw kws IH]; intros acc Hn; cbn [fold_left].
  - split; [assumption|]. intros k. simpl. tauto.
  - unfold addIfNew at 2 4.
    destruct (f kw) eqn:Ef; cbn [andb];
      [destruct (Array_includes acc kw) eqn:Ei; cbn [negb]|].
    + apply Array_includes_In in Ei.
      destruct (IH acc Hn) as [H1 H2]. split; [assumption|].
      intros k. rewrite H2. simpl. intuition (subst; auto).
    + assert (Hk : ~ In kw acc).
      { intros H. apply Array_includes_In in H. congruence. }
      assert (Hn' : NoDup (acc ++ [kw])).
      { apply NoDup_app; auto; [repeat constructor; auto|].
        intros x Hx [<-|[]]. auto. }
      destruct (IH _ Hn') as [H1 H2]. split; [assumption|].
      intros k. rewrite H2, in_app_iff. simpl.
      intuition (subst; auto).
    + destruct (IH acc Hn) as [H1 H2]. split; [assumption|].
      intros k. rewrite H2. simpl.
      intuition (subst; auto; congruence).
Qed.

Lemma hit_includes token keyword :
  streq token keyword || includes keyword token = includes keyword token.
Proof.
  destruct (streq token keyword) eqn:E; [|reflexivity].
  apply streq_eq in E. subst. now rewrite includes_refl.
Qed.

Lemma findMatchingKeywords_fold keywords tokens : forall acc,
  NoDup acc ->
  let result :=
    fold_left
      (fun matches token =>
         fold_left
           (addIfNew (fun keyword => streq token keyword || includes keyword token))
           keywords matches)
      tokens acc in
  NoDup result /\
  forall k, In k result
            <-> In k acc \/
                (In k keywords /\ exists t, In t tokens /\ includes k t = true).
Proof.
  cbv zeta. induction tokens as [|t ts IH]; intros acc Hn; cbn [fold_left].
  - split; [assumption|]. intros k. split; [auto|].
    intros [H|(_ & t & [] & _)]. exact H.
  - destruct (addIfNew_fold
                (fun keyword => streq t keyword || includes keyword t)
                keywords acc Hn) as [Hn' Hin].
    destruct (IH _ Hn') as [H1 H2]. split; [assumption|].
    intros k. rewrite H2, Hin, hit_includes. split.
    + intros [[H|[Hk Hi]]|(Hk & t' & Ht & Hi)]; eauto 7 with datatypes.
    + intros [H|(Hk & t' & [<-|Ht] & Hi)]; eauto 7.
Qed.

(** The keywords reported are the trigger phrases of the list that contain
    some token, each once; without a list ([undefined]) none is reported. *)
Theorem findMatchingKeywords_spec tokens keywords :
  NoDup (findMatchingKeywords tokens (Some keywords)) /\
  (forall k, In k (findMatchingKeywords tokens (Some keywords))
             <-> In k keywords /\ exists t, In t tokens /\ includes k t = true) /\
  findMatchingKeywords tokens None = [].
Proof.
  destruct (findMatchingKeywords_fold keywords tokens [] (NoDup_nil _))
    as [H1 H2].
  split; [exact H1|]. split.
  - intros k. etransitivity; [exact (H2 k)|]. simpl. tauto.
  - clear H1 H2. unfold findMatchingKeywords.
    induction tokens as [|t ts IH]; [reflexivity|]. exact IH.
Qed.

Lemma includes_nil s : includes s [] = true.
Proof. destruct s; reflexivity. Qed.

(** An empty token (the message is empty, or starts or ends with white
    space) is contained in every trigger phrase: all phrases of the list
    are reported. *)
Theorem findMatchingKeywords_empty_token tokens keywords k :
  In [] tokens -> In k keywords ->
  In k (findMatchingKeywords tokens (Some keywords)).
Proof.
  intros Ht Hk.
  destruct (findMatchingKeywords_fold keywords tokens [] (NoDup_nil _))
    as [_ H].
  apply (H k). right. split; [assumption|].
  exists []. split; [assumption|apply includes_nil].
Qed.

Lemma findMatchingKeywords_empty_token_witness :
  let tokens := tokensOf (js " order status") in
  let k := js "tracking" in
  In [] tokens /\ In k (keywordsOf "order_support") /\
  In k (findMatchingKeywords tokens (Some (keywordsOf "order_support"))).
Proof.
  assert (Ht : In [] (tokensOf (js " order status"))) by (vm_compute; auto).
  assert (Hk : In (js "tracking") (keywordsOf "order_support"))
    by (vm_compute; auto 10).
  split; [exact Ht|]. split; [exact Hk|].
  exact (findMatchingKeywords_empty_token (tokensOf (js " order status"))
           (keywordsOf "order_support") (js "tracking") Ht Hk).
Defined.

(** *** Context *)

Lemma find_hd_filter (f : jsstring -> bool) l : find f l = hd_error (filter f l).
Proof.
  induction l as [|x l IH]; [reflexivity|]. simpl. now destruct (f x).
Qed.

Lemma firstOrNull_hd l :
  firstOrNull l = match hd_error l with
                  | Some (c :: t) => Some (c :: t)
                  | _ => None
                  end.
Proof. destruct l as [|[|c t] l]; reflexivity. Qed.

Lemma firstOrNull_partNumbers message :
  firstOrNull (Sanitizers.partNumbers (Sanitizers.extractEntities message))
  = Sanitizers.extractPartNumber message.
Proof.
  rewrite firstOrNull_hd. unfold Sanitizers.extractEntities, Sanitizers.extractPartNumber.
  cbn [Sanitizers.partNumbers]. rewrite Set_of_hd.
  destruct (match_g Sanitizers.partPattern message) as [[|m0 l]|] eqn:E;
    try reflexivity.
  cbn [app map hd_error].
  destruct (partPattern_hit message (m0 :: l) m0 E (in_eq _ _))
    as (_ & ds & -> & _).
  reflexivity.
Qed.

Lemma firstOrNull_modelNumbers message :
  firstOrNull (Sanitizers.modelNumbers (Sanitizers.extractEntities message))
  = Sanitizers.extractModelNumber message.
Proof.
  rewrite firstOrNull_hd. unfold Sanitizers.extractEntities, Sanitizers.extractModelNumber.
  cbn [Sanitizers.modelNumbers]. rewrite Set_of_hd.
  destruct (match_g Sanitizers.modelPattern message) as [l|]; [|reflexivity].
  cbn [app]. rewrite find_hd_filter.
  destruct (hd_error _) as [[|c t]|]; reflexivity.
Qed.

(** The part and model number of the context are what [extractPartNumber]
    and [extractModelNumber] return for the message: the first match of
    each kind, or [null]. *)
Theorem classifyIntent_context message :
  exists ctx,
    context (classifyIntent message) = Some ctx /\
    partNumber ctx = Sanitizers.extractPartNumber message /\
    modelNumber ctx = Sanitizers.extractModelNumber message /\
    applianceType ctx = detectApplianceType message.
Proof.
  unfold classifyIntent; cbv zeta. cbn [reduce context].
  eexists. split; [reflexivity|]. cbn [partNumber modelNumber applianceType].
  split; [apply firstOrNull_partNumbers|].
  split; [apply firstOrNull_modelNumbers|reflexivity].
Qed.

End IntentMore.

(** ** Helpers *)

Section HelpersMore.
Import Helpers.
Local Open Scope Z_scope.

(** With a suffix that fits into [maxLength], the truncated string has at
    most [maxLength] characters; a string that already fits is returned
    as it is, and a longer one is cut and ends with the suffix. *)
Theorem truncateString_length str maxLength suffix :
  Z.of_nat (List.length suffix) <= maxLength ->
  Z.of_nat (List.length (truncateString str maxLength suffix)) <= maxLength /\
  (Z.of_nat (List.length str) <= maxLength ->
   truncateString str maxLength suffix = str) /\
  (maxLength < Z.of_nat (List.length str) ->
   exists kept,
     truncateString str maxLength suffix = kept ++ suffix /\
     kept = firstn (Z.to_nat (maxLength - Z.of_nat (List.length suffix))) str /\
     Z.of_nat (List.length (kept ++ suffix)) = maxLength).
Proof.
  intros Hs. unfold truncateString, substring0.
  destruct (Z.leb_spec (Z.of_nat (List.length str)) maxLength) as [H|H].
  - split; [assumption|]. split; [reflexivity|lia].
  - assert (Hl : List.length
                   (firstn (Z.to_nat (maxLength - Z.of_nat (List.length suffix))) str)
                 = Z.to_nat (maxLength - Z.of_nat (List.length suffix))).
    { rewrite length_firstn. lia. }
    split; [rewrite length_app, Hl; lia|]. split; [lia|].
    intros _. eexists. split; [reflexivity|]. split; [reflexivity|].
    rewrite length_app, Hl. lia.
Qed.

Lemma truncateString_length_witness :
  let str := js "Replacement water inlet valve for refrigerators" in
  let suffix := js "..." in
  Z.of_nat (List.length suffix) <= 20 /\
  Z.of_nat (List.length (truncateString str 20 suffix)) <= 20.
Proof.
  split; [vm_compute; discriminate|].
  apply (truncateString_length
           (js "Replacement water inlet valve for refrigerators") 20 (js "...")).
  vm_compute; discriminate.
Defined.

End HelpersMore.
